(** * The evidence cache of the report pipeline

    A shallow embedding of the tag-keyed article cache and of the report
    orchestrator built on it:

    - [Phase1/utilities.py]: [extract_tags], [query_database_by_tags],
      [append_articles];
    - [Phase1/db_append.py]: [store_articles];
    - [Core_Workflow/report_generator.py]: [supplement_data],
      [collate_article_summaries], [generate_analysis_report],
      [generate_report_for_query].

    Python dictionaries with a fixed key set are records of optional
    fields, the [articles] table is a finite map keyed by its primary key,
    and the code runs in a state-and-exception monad over a [world] that
    holds the table and the history of calls made to the collaborators
    (KeyBERT, PostgreSQL, the search/summarise fetcher, the chat model).
    A statement reaches the table only when psycopg2 can adapt its
    parameters and the server accepts them; otherwise it raises, and the
    handlers of the code take over. *)

From Stdlib Require Import QArith.
From stdpp Require Import gmap strings list fin_maps pretty.

(** ** Data model *)

(** An article dictionary.  [get_k a] is [a.get("k")]: [None] when the key
    is absent (or holds Python's [None]).  The fetcher builds dictionaries
    with the keys [url], [raw_content] and [summary]; rows read back from
    the table carry [url], [summary], [query], [tags] and
    [retrieval_timestamp]. *)
Record article := Article {
  get_url : option string;
  get_raw_content : option string;
  get_summary : option string;
  get_query : option string;
  get_tags : option (list string);
  get_retrieval_timestamp : option Z
}.

(** A row of [articles(url PRIMARY KEY, summary, query, tags,
    retrieval_timestamp)] without its key.  Timestamps are microseconds. *)
Record row := Row {
  col_summary : option string;
  col_query : option string;
  col_tags : option (list string);
  col_retrieval_timestamp : Z
}.

(** The table: at most one row per [url]. *)
Abbreviation table := (gmap string row).

(** The parameter tuple bound to [VALUES %s]:
    [(url, summary, query_text, tags)]. *)
Definition tuple : Type :=
  option string * option string * option string * option (list string).

Global Instance article_eq_dec : EqDecision article.
Proof. solve_decision. Defined.

Global Instance row_eq_dec : EqDecision row.
Proof. solve_decision. Defined.

(** ** Collaborators and the world *)

(** The result of running a piece of Python: a value or an exception,
    named by its class. *)
Inductive outcome (A : Type) : Type :=
| Return (a : A)
| Raise (e : string).
Arguments Return {A} a.
Arguments Raise {A} e.

(** Calls that cross the boundary of the orchestrator. *)
Inductive event :=
| Call_extract_keywords (doc : string) (top_n : nat)
| Call_query_database_by_tags (query_tags : list string) (min_matches : Z)
| Call_get_data_and_summarize (query : string) (num_results : nat)
| Call_append_articles (articles : list article)
| Call_store_articles (articles : list article)
| Call_chat_completions (prompt : string).

Global Instance event_eq_dec : EqDecision event.
Proof. solve_decision. Defined.

(** The behaviour of what lies outside the repository's control flow.
    - [kw_extract_keywords doc top_n]: KeyBERT's scored keywords;
    - [db_session n]: the [n]-th [psycopg2.connect] either fails ([None])
      or opens a session whose transaction starts at the given time, the
      value of [NOW()] in it;
    - [db_accepts n v]: whether the server takes the tuple [v] in a
      statement sent over the [n]-th connection.  It refuses what the
      table cannot hold (a key too long for its index, a value that breaks
      a constraint of the DDL) and everything once the connection is lost;
    - [search_and_summarize query num_results]: the search, scrape and
      summarise stages behind [get_data_and_summarize];
    - [chat_completions prompt]: [client.chat.completions.create(...)]
      with the prompt as the user message, and the value of
      [response.choices[0].message.content] when it returns a text; an
      answer without one raises inside the [try] block as well. *)
Record env := Env {
  kw_extract_keywords : string → nat → outcome (list (string * Q));
  db_session : nat → option Z;
  db_accepts : nat → tuple → bool;
  search_and_summarize : string → nat → outcome (list article);
  chat_completions : string → outcome string
}.

Record world := World {
  articles_table : table;
  connections : nat;
  calls : list event
}.

(** ** The monad of Python code: state and exceptions *)

Definition py (A : Type) : Type := world → outcome A * world.

Definition ret {A} (a : A) : py A := λ w, (Return a, w).

Definition raise {A} (e : string) : py A := λ w, (Raise e, w).

Definition bind {A B} (m : py A) (k : A → py B) : py B :=
  λ w, match m w with
       | (Return a, w') => k a w'
       | (Raise e, w') => (Raise e, w')
       end.

(** [try: m except Exception as e: h e] *)
Definition try_except {A} (m : py A) (h : string → py A) : py A :=
  λ w, match m w with
       | (Return a, w') => (Return a, w')
       | (Raise e, w') => h e w'
       end.

Notation "'let*' x := m 'in' k" := (bind m (λ x, k))
  (at level 10, x name, m at level 100, k at level 200, only parsing).
Notation "m ;; k" := (bind m (λ _, k))
  (at level 100, k at level 200, right associativity, only parsing).

Definition record_call (ev : event) : py unit :=
  λ w, (Return (), World (articles_table w) (connections w) (calls w ++ [ev])).

Definition read_table : py table := λ w, (Return (articles_table w), w).

(** [conn.commit()]: the transaction's table becomes the stored one. *)
Definition commit (tbl : table) : py unit :=
  λ w, (Return (), World tbl (connections w) (calls w)).

(** ** PostgreSQL statements on the table *)

(** [tags && %s]: the arrays share an element; [NULL && _] is not true. *)
Definition array_overlap (tags : option (list string)) (query_tags : list string) : bool :=
  match tags with
  | None => false
  | Some ts => existsb (λ t, bool_decide (t ∈ query_tags)) ts
  end.

(** [SELECT url, summary, query, tags, retrieval_timestamp FROM articles
    WHERE tags && %s]: the selected rows, each with its (non-null) tags. *)
Definition select_overlapping (tbl : table) (query_tags : list string)
  : list (string * row * list string) :=
  flat_map (λ kr : string * row,
              match col_tags kr.2 with
              | Some ts => if array_overlap (Some ts) query_tags
                           then [(kr.1, kr.2, ts)] else []
              | None => []
              end)
           (map_to_list tbl).

(** Modelled from the spec: the table's DDL is not in the repository.  The
    spec gives [url] as primary key and [retrieval_timestamp] as set on
    every insert, so an inserted row takes the transaction time [t]. *)
Definition inserted_row (t : Z) (s q : option string) (tg : option (list string)) : row :=
  Row s q tg t.

(** psycopg2 adapts every parameter to a literal before the statement is
    sent, and refuses a string that holds a NUL character
    ([ValueError: A string literal cannot contain NUL (0x00) characters]). *)
Fixpoint has_nul (s : string) : bool :=
  match s with
  | EmptyString => false
  | String c rest => Ascii.eqb c Ascii.zero || has_nul rest
  end.

Definition nul_free (v : option string) : bool :=
  match v with
  | Some s => negb (has_nul s)
  | None => true
  end.

Definition adaptable_list (l : list string) : bool :=
  forallb (λ s, negb (has_nul s)) l.

(** The driver can adapt the tuple [(url, summary, query_text, tags)]. *)
Definition adaptable (v : tuple) : bool :=
  nul_free v.1.1.1 && nul_free v.1.1.2 && nul_free v.1.2
  && adaptable_list (default [] v.2).

(** [cur.execute(sql, params)] adapts [params] before anything is sent. *)
Definition adapt (params_adaptable : bool) : py unit :=
  if params_adaptable then ret () else raise "ValueError".

(** [INSERT INTO articles (url, summary, query, tags) VALUES ...
    ON CONFLICT (url) DO NOTHING], one statement over [values].
    [accepts v] says that the driver and the server take the tuple [v].
    [None] is an error, which leaves nothing of the statement behind: a
    tuple that is not accepted, or a null primary key. *)
Fixpoint insert_do_nothing (accepts : tuple → bool) (t : Z) (values : list tuple)
    (tbl : table) : option table :=
  match values with
  | [] => Some tbl
  | (url, s, q, tg) :: rest =>
      if negb (accepts (url, s, q, tg)) then None
      else
        match url with
        | None => None
        | Some u =>
            match tbl !! u with
            | Some _ => insert_do_nothing accepts t rest tbl
            | None => insert_do_nothing accepts t rest (<[u := inserted_row t s q tg]> tbl)
            end
        end
  end.

(** [... ON CONFLICT (url) DO UPDATE SET summary = EXCLUDED.summary,
    query = EXCLUDED.query, tags = EXCLUDED.tags,
    retrieval_timestamp = NOW()], one statement.  A new row is inserted
    with the transaction time as above, a stored one is overwritten and
    stamped with [NOW()], the same time.  [touched] holds the keys the
    statement has already written: PostgreSQL refuses to affect a row a
    second time in one command.  A tuple that is not accepted fails the
    statement as above. *)
Fixpoint insert_do_update (accepts : tuple → bool) (t : Z) (values : list tuple)
    (touched : gset string) (tbl : table) : option table :=
  match values with
  | [] => Some tbl
  | (url, s, q, tg) :: rest =>
      if negb (accepts (url, s, q, tg)) then None
      else
        match url with
        | None => None
        | Some u =>
            if bool_decide (u ∈ touched) then None
            else insert_do_update accepts t rest ({[u]} ∪ touched)
                   (<[u := Row s q tg t]> tbl)
        end
  end.

(** [psycopg2.extras.execute_values(cur, sql, argslist)] runs the statement
    once per page of [page_size = 100] tuples. *)
Fixpoint paginate_go {A} (fuel page_size : nat) (seq : list A) : list (list A) :=
  match fuel, seq with
  | _, [] => []
  | 0, _ :: _ => []
  | S fuel', _ :: _ =>
      take page_size seq :: paginate_go fuel' page_size (drop page_size seq)
  end.

Definition paginate {A} (page_size : nat) (seq : list A) : list (list A) :=
  paginate_go (length seq) page_size seq.

Definition run_pages (statement : list tuple → table → option table)
    (pages : list (list tuple)) (acc : option table) : option table :=
  foldl (λ acc page, match acc with
                     | Some tb => statement page tb
                     | None => None
                     end)
        acc pages.

Definition execute_values (statement : list tuple → table → option table)
    (argslist : list tuple) (tbl : table) : option table :=
  run_pages statement (paginate 100 argslist) (Some tbl).

Definition data_tuple (a : article) : tuple :=
  (get_url a, get_summary a, get_query a, get_tags a).

(** [dict(row)] for a row fetched through [RealDictCursor]. *)
Definition dict_of_row (u : string) (r : row) : article :=
  {| get_url := Some u;
     get_raw_content := None;
     get_summary := col_summary r;
     get_query := col_query r;
     get_tags := col_tags r;
     get_retrieval_timestamp := Some (col_retrieval_timestamp r) |}.

(** ** The code *)

Definition nl : string := String (Ascii.ascii_of_nat 10) EmptyString.
Definition dquote : string := String (Ascii.ascii_of_nat 34) EmptyString.

(** *** [str.strip()]

    A string stands for the UTF-8 encoding of a Python [str].  The
    characters [c] with [c.isspace()] are U+0009..U+000D, U+001C..U+0020,
    U+0085, U+00A0, U+1680, U+2000..U+200A, U+2028, U+2029, U+202F, U+205F
    and U+3000: one, two or three bytes each. *)
Definition isspace1 (c : Ascii.ascii) : bool :=
  let n := Ascii.nat_of_ascii c in
  ((9 <=? n) && (n <=? 13)) || ((28 <=? n) && (n <=? 32)).

Definition isspace2 (c1 c2 : Ascii.ascii) : bool :=
  let n1 := Ascii.nat_of_ascii c1 in
  let n2 := Ascii.nat_of_ascii c2 in
  (n1 =? 194) && ((n2 =? 133) || (n2 =? 160)).

Definition isspace3 (c1 c2 c3 : Ascii.ascii) : bool :=
  let n1 := Ascii.nat_of_ascii c1 in
  let n2 := Ascii.nat_of_ascii c2 in
  let n3 := Ascii.nat_of_ascii c3 in
  ((n1 =? 225) && (n2 =? 154) && (n3 =? 128))
  || ((n1 =? 226) && (n2 =? 128)
      && (((128 <=? n3) && (n3 <=? 138)) || (n3 =? 168) || (n3 =? 169) || (n3 =? 175)))
  || ((n1 =? 226) && (n2 =? 129) && (n3 =? 159))
  || ((n1 =? 227) && (n2 =? 128) && (n3 =? 128)).

(** Dropping the whitespace at the front of a string.  With
    [backwards], the string is a reversed one, and so are the bytes of
    each character in it. *)
Fixpoint drop_space (backwards : bool) (s : string) : string :=
  match s with
  | String c1 s1 =>
      if isspace1 c1 then drop_space backwards s1
      else
        match s1 with
        | String c2 s2 =>
            if (if backwards then isspace2 c2 c1 else isspace2 c1 c2)
            then drop_space backwards s2
            else
              match s2 with
              | String c3 s3 =>
                  if (if backwards then isspace3 c3 c2 c1 else isspace3 c1 c2 c3)
                  then drop_space backwards s3
                  else s
              | EmptyString => s
              end
        | EmptyString => s
        end
  | EmptyString => s
  end.

Definition lstrip (s : string) : string := drop_space false s.

Definition rstrip (s : string) : string :=
  String.rev (drop_space true (String.rev s)).

Definition strip (s : string) : string := rstrip (lstrip s).

(** Python truth of [d.get(k)] for a string and for a list. *)
Definition truthy_str (v : option string) : bool :=
  match v with
  | Some (String _ _) => true
  | _ => false
  end.

Definition truthy_list {A} (v : option (list A)) : bool :=
  match v with
  | Some (_ :: _) => true
  | _ => false
  end.

(** [enumerate(articles)] *)
Definition enumerate {A} (l : list A) : list (nat * A) := imap pair l.

(** The double [0.2], as the rational it denotes; KeyBERT's scores are
    doubles too, so [score > threshold] is a comparison of rationals. *)
Definition threshold : Q := 3602879701896397 # 18014398509481984.

Definition MIN_ARTICLE_THRESHOLD : nat := 7.

(** [collate_article_summaries], [report_generator.py] lines 30-41. *)
Definition collate_article_summaries (articles : list article) : string :=
  foldl (λ (collated : string) (ia : nat * article),
           let summary := get_summary ia.2 in
           let url := default "Unknown URL" (get_url ia.2) in
           if truthy_str summary
           then collated +:+ "Article " +:+ pretty (ia.1 + 1) +:+ " (URL: " +:+ url
                  +:+ "):" +:+ nl +:+ default "" summary +:+ nl +:+ nl
           else collated)
        "" (enumerate articles).

(** The filter of the list comprehension at lines 107-110:
    [article.get("url", "").startswith("http") and
     article["url"] not in existing_urls]. *)
Definition keep_supplementary (existing_urls : gset string) (a : article) : bool :=
  match get_url a with
  | Some u => String.prefix "http" u && bool_decide (u ∉ existing_urls)
  | None => false
  end.

(** The body of the loop at lines 113-117. *)
Definition set_query_and_tags (query : string) (tags : list string) (a : article) : article :=
  let q := if truthy_str (get_query a) then get_query a else Some query in
  let tg := if truthy_list (get_tags a) then get_tags a else Some tags in
  {| get_url := get_url a;
     get_raw_content := get_raw_content a;
     get_summary := get_summary a;
     get_query := q;
     get_tags := tg;
     get_retrieval_timestamp := get_retrieval_timestamp a |}.

(** [len(article_tags.intersection(query_tags))] with
    [article_tags = set(row.get("tags", []))]. *)
Definition common_tags (article_tags query_tags : list string) : gset string :=
  (list_to_set article_tags : gset string) ∩ list_to_set query_tags.

(** The prompt of [generate_analysis_report], lines 44-58: the base
    prompt, then a newline and the extra instructions when there are any. *)
Definition build_prompt (context query extra_instructions : string) : string :=
  let base_prompt :=
    "
    You are an expert data analyst. Based on the following information extracted from various reputable sources:
    " +:+ context +:+ "

    Generate a comprehensive and deeply researched report addressing the query: " +:+ dquote +:+ query +:+ dquote +:+ ". Your report should:
    1. **Executive Summary:** Present a concise overview of the key findings.
    2. **Detailed Analysis:** Provide an in-depth analysis that synthesizes the information, identifies underlying trends, and explains the significance of the data.
    3. **Supplementary Insights:** Offer additional insights such as comparisons with historical data, contextual factors influencing the trends, and potential implications for future decisions.
    4. **Conclusion:** Summarize the overall insights and propose actionable recommendations or considerations.

    Ensure that the report is clear, logically organized, and written in a tone appropriate for strategic decision-making rather than journalistic reporting.
    Ensure that the report includes all sections as described and do not shorten the output to only a final summary.
    " in
  match extra_instructions with
  | String _ _ => base_prompt +:+ nl +:+ extra_instructions
  | EmptyString => base_prompt
  end.

Section Code.
Context (E : env).

(** [KeyBERT(...).extract_keywords(query, ..., top_n=top_n)] *)
Definition extract_keywords (doc : string) (top_n : nat) : py (list (string * Q)) :=
  record_call (Call_extract_keywords doc top_n);;
  λ w, (kw_extract_keywords E doc top_n, w).

(** [extract_tags], [utilities.py] lines 13-24. *)
Definition extract_tags (query : string) (top_n : nat) : py (list string) :=
  let* keywords := extract_keywords query top_n in
  let filtered_keywords :=
    map fst (List.filter (λ ks : string * Q, negb (Qle_bool ks.2 threshold)) keywords) in
  ret filtered_keywords.

(** [psycopg2.connect(...)]: the transaction time of the new session. *)
Definition connect : py Z :=
  λ w, let w' := World (articles_table w) (S (connections w)) (calls w) in
       match db_session E (connections w) with
       | Some t => (Return t, w')
       | None => (Raise "OperationalError", w')
       end.

(** [query_database_by_tags], [utilities.py] lines 64-107.  A tag list
    that the driver cannot adapt makes [cur.execute] raise, and the handler
    returns the empty [results]. *)
Definition query_database_by_tags (query_tags : list string) (min_matches : Z)
  : py (list article) :=
  record_call (Call_query_database_by_tags query_tags min_matches);;
  try_except
    (let* _ := connect in
     adapt (adaptable_list query_tags);;
     let* tbl := read_table in
     let rows := select_overlapping tbl query_tags in
     let results :=
       List.filter (λ r : string * row * list string,
                      (min_matches <=? Z.of_nat (size (common_tags r.2 query_tags)))%Z)
                   rows in
     ret (map (λ r : string * row * list string, dict_of_row r.1.1 r.1.2) results))
    (λ _, ret []).

(** The session opened by the last [connect]. *)
Definition current_session : py nat := λ w, (Return (pred (connections w)), w).

(** A statement sent over the [session]-th connection takes the tuple:
    the driver can adapt it and the server accepts it. *)
Definition accepted (session : nat) (v : tuple) : bool :=
  adaptable v && db_accepts E session v.

(** [append_articles], [utilities.py] lines 112-158: insert-or-skip.
    Nothing is stored before [conn.commit()]; an exception of
    [execute_values] is caught, and the handler's [conn.rollback()] and
    the final [conn.close()] leave the stored table as it was and are
    taken not to raise. *)
Definition append_articles (articles : list article) : py unit :=
  record_call (Call_append_articles articles);;
  try_except
    (let* t := connect in
     let* session := current_session in
     let* tbl := read_table in
     let data_tuples := map data_tuple articles in
     match execute_values (insert_do_nothing (accepted session) t) data_tuples tbl with
     | Some tbl' => commit tbl'
     | None => raise "Exception"
     end)
    (λ _, ret ()).

(** [store_articles], [db_append.py] lines 17-64: insert-or-update. *)
Definition store_articles (articles : list article) : py unit :=
  record_call (Call_store_articles articles);;
  try_except
    (let* t := connect in
     let* session := current_session in
     let* tbl := read_table in
     let data_tuples := map data_tuple articles in
     match execute_values (λ page, insert_do_update (accepted session) t page ∅)
             data_tuples tbl with
     | Some tbl' => commit tbl'
     | None => raise "Exception"
     end)
    (λ _, ret ()).

(** [get_data_and_summarize(query=query, num_results=num_results,
    output_file=None)], [get_data_revised.py] lines 235-268.  An empty
    query selects the mode ["urls"], and [fetch_data] raises for the
    missing [url_list]. *)
Definition get_data_and_summarize (query : string) (num_results : nat)
  : py (list article) :=
  record_call (Call_get_data_and_summarize query num_results);;
  if bool_decide (query = "") then raise "ValueError"
  else λ w, (search_and_summarize E query num_results, w).

(** [supplement_data], [report_generator.py] lines 17-28. *)
Definition supplement_data (query : string) (num_results : nat) : py (list article) :=
  try_except (get_data_and_summarize query num_results) (λ _, ret []).

(** [generate_analysis_report], [report_generator.py] lines 43-77:
    [report = response.choices[0].message.content.strip()] at line 73. *)
Definition generate_analysis_report (context query extra_instructions : string)
  : py string :=
  let prompt := build_prompt context query extra_instructions in
  try_except
    (record_call (Call_chat_completions prompt);;
     let* content := (λ w, (chat_completions E prompt, w)) in
     let report := strip content in
     ret report)
    (λ _, ret "Error generating report.").

(** [article["url"]] *)
Definition subscript_url (a : article) : py string :=
  match get_url a with
  | Some u => ret u
  | None => raise "KeyError"
  end.

Fixpoint for_each {A B} (f : A → py B) (l : list A) : py (list B) :=
  match l with
  | [] => ret []
  | x :: l' => let* y := f x in let* ys := for_each f l' in ret (y :: ys)
  end.

(** [generate_report_for_query], lines 92-126: the value of [articles]
    when line 128 is reached. *)
Definition merged_set (query : string) : py (list article) :=
  let* tags := extract_tags query 5 in
  let* articles_from_db := query_database_by_tags tags 4 in
  if length articles_from_db <? MIN_ARTICLE_THRESHOLD then
    let* supplementary_articles := supplement_data query 5 in
    let* urls := for_each subscript_url articles_from_db in
    let existing_urls : gset string := list_to_set urls in
    let supplementary_articles :=
      List.filter (keep_supplementary existing_urls) supplementary_articles in
    let supplementary_articles :=
      map (set_query_and_tags query tags) supplementary_articles in
    (match supplementary_articles with
     | _ :: _ => append_articles supplementary_articles
     | [] => ret ()
     end);;
    ret (articles_from_db ++ supplementary_articles)
  else
    ret articles_from_db.

(** [generate_report_for_query], [report_generator.py] lines 79-136. *)
Definition generate_report_for_query (query extra_instructions : string) : py string :=
  let* articles := merged_set query in
  match articles with
  | [] => ret "No relevant articles found to generate a report."
  | _ :: _ =>
      let context := collate_article_summaries articles in
      generate_analysis_report context query extra_instructions
  end.

End Code.

(** ** Vocabulary of the properties *)

(** The number of distinct tags a stored row shares with the query tag
    set; a row without tags shares none. *)
Definition shared_tags (r : row) (query_tags : list string) : nat :=
  size (common_tags (default [] (col_tags r)) query_tags).

(** The batch is one the store takes in the session that a write started
    in [w] opens: the driver can adapt every tuple and the server accepts
    it. *)
Definition batch_accepted (E : env) (w : world) (articles : list article) : Prop :=
  ∀ b, b ∈ articles → accepted E (connections w) (data_tuple b) = true.

(** Counting the calls made to a collaborator. *)
Definition is_fetcher_call (ev : event) : bool :=
  match ev with
  | Call_get_data_and_summarize _ _ => true
  | _ => false
  end.

Definition is_narration_call (ev : event) : bool :=
  match ev with
  | Call_chat_completions _ => true
  | _ => false
  end.

Definition count_calls (p : event → bool) (evs : list event) : nat :=
  length (List.filter p evs).

(** The URLs of a list of articles. *)
Definition urls_of (l : list article) : list string := omap get_url l.

(** The candidates the supplementing branch keeps, with their defaults:
    the value of [supplementary_articles] at line 119. *)
Definition survivors (query : string) (tags : list string)
    (cached fetched : list article) : list article :=
  map (set_query_and_tags query tags)
      (List.filter (keep_supplementary (list_to_set (urls_of cached))) fetched).

(** *** The supplementing step as the specification words it *)

(** The URL begins with the scheme marker the code recognises. *)
Definition begins_with_scheme (a : article) : Prop :=
  ∃ u, get_url a = Some u ∧ String.prefix "http" u = true.

(** The URL is that of some cached article. *)
Definition url_is_cached (cached : list article) (a : article) : Prop :=
  ∃ c u, c ∈ cached ∧ get_url c = Some u ∧ get_url a = Some u.

Definition discarded (cached : list article) (a : article) : Prop :=
  ¬ begins_with_scheme a ∨ url_is_cached cached a.

(** A candidate and the same candidate with [query] and [tags] defaulted
    where it had no value. *)
Definition defaulted (query : string) (tags : list string) (c c' : article) : Prop :=
  get_url c' = get_url c
  ∧ get_raw_content c' = get_raw_content c
  ∧ get_summary c' = get_summary c
  ∧ get_retrieval_timestamp c' = get_retrieval_timestamp c
  ∧ ((get_query c = None ∨ get_query c = Some "") → get_query c' = Some query)
  ∧ (¬ (get_query c = None ∨ get_query c = Some "") → get_query c' = get_query c)
  ∧ ((get_tags c = None ∨ get_tags c = Some []) → get_tags c' = Some tags)
  ∧ (¬ (get_tags c = None ∨ get_tags c = Some []) → get_tags c' = get_tags c).

(** [supplemented query tags cached fetched kept]: [kept] is [fetched]
    without the discarded candidates, in order, each with its defaults. *)
Inductive supplemented (query : string) (tags : list string) (cached : list article)
  : list article → list article → Prop :=
| supplemented_nil :
    supplemented query tags cached [] []
| supplemented_discard c fetched kept :
    discarded cached c →
    supplemented query tags cached fetched kept →
    supplemented query tags cached (c :: fetched) kept
| supplemented_keep c c' fetched kept :
    ¬ discarded cached c →
    defaulted query tags c c' →
    supplemented query tags cached fetched kept →
    supplemented query tags cached (c :: fetched) (c' :: kept).

(** *** Collation as the specification words it *)

(** The block for the article at a 1-based [position]: a label with the
    position and the URL, then the summary. *)
Definition block (position : nat) (a : article) : string :=
  "Article " +:+ pretty position +:+ " (URL: " +:+ default "Unknown URL" (get_url a)
    +:+ "):" +:+ nl +:+ default "" (get_summary a) +:+ nl +:+ nl.

(** What the article at 0-based [index] of the merged set contributes: its
    block, or nothing when its summary is empty. *)
Definition emitted (index : nat) (a : article) : string :=
  if truthy_str (get_summary a) then block (index + 1) a else "".

(** ** Concrete stores and collaborators *)

Module Scenario.

Definition quiet : env :=
  Env (λ _ _, Return []) (λ n, Some (1000 + Z.of_nat n)%Z) (λ _ _, true)
      (λ _ _, Return []) (λ _, Return "report").

Definition trump_row : row :=
  Row (Some "Tariff news") (Some "tariff rules") (Some ["trump"; "tariff"]) 10.

Definition one_row : world :=
  World {["https://example.com/a" := trump_row]} 0 [].

Definition empty_store : world := World ∅ 0 [].

Definition fetched (u s : string) : article :=
  Article (Some u) (Some "raw text") (Some s) None None None.

Definition tariff_article : article :=
  Article (Some "https://example.com/a") None (Some "Tariff news")
          (Some "tariff rules") (Some ["trump"; "tariff"]) None.

Definition no_summary (u : string) : article :=
  Article (Some u) (Some "raw text") (Some "") None None None.

Definition revised_article : article :=
  Article (Some "https://example.com/a") None (Some "Tariffs, revised")
          (Some "tariff rules 2") (Some ["tariff"; "china"]) None.

(** A query with four keywords above the threshold, a fetcher that
    returns the same address twice and one [ftp] address. *)
Definition newsroom : env :=
  Env (λ _ _, Return [("tariff", 1 # 2); ("trump", 2 # 5); ("china", 3 # 10);
                      ("rules", 1 # 4); ("new", 1 # 10)])
      (λ n, Some (1000 + Z.of_nat n)%Z) (λ _ _, true)
      (λ _ _, Return [fetched "https://news.example/x" "X";
                      fetched "ftp://files.example/y" "Y";
                      fetched "https://news.example/x" "X again";
                      fetched "https://example.com/b" "B"])
      (λ _, Raise "RateLimitError").

Definition archive : world :=
  World (<["https://example.com/b" :=
             Row (Some "Rules for China") (Some "china rules")
                 (Some ["rules"; "china"; "tariff"; "trump"]) 20]>
           {["https://example.com/a" := trump_row]}) 0 [].

(** Seven stored articles that share four tags with the query. *)
Definition full_archive : world :=
  World (list_to_map
           (map (λ n : nat,
                   ("https://example.com/" +:+ pretty n,
                    Row (Some ("Summary " +:+ pretty n)) (Some "china rules")
                        (Some ["rules"; "china"; "tariff"; "trump"]) (Z.of_nat n)))
                (seq 1 7)))
        0 [].

(** A store whose clock gives every transaction the same reading. *)
Definition frozen_clock : env :=
  Env (λ _ _, Return []) (λ _, Some 1000%Z) (λ _ _, true)
      (λ _ _, Return []) (λ _, Return "report").

(** A keyword model that cannot be loaded. *)
Definition untagged : env :=
  Env (λ _ _, Raise "OSError") (λ n, Some (1000 + Z.of_nat n)%Z) (λ _ _, true)
      (λ _ _, Return [fetched "https://news.example/x" "X"])
      (λ _, Return "report").

(** A chat model that pads its answer with blank space. *)
Definition padded : env :=
  Env (λ _ _, Return [("latest", 3 # 20); ("things", 1 # 10)])
      (λ n, Some (1000 + Z.of_nat n)%Z) (λ _ _, true)
      (λ _ _, Return [fetched "https://news.example/x" "X"])
      (λ _, Return (nl +:+ "  The  report. " +:+ nl)).

(** A query whose keywords all score below the threshold. *)
Definition vague : env :=
  Env (λ _ _, Return [("latest", 3 # 20); ("things", 1 # 10)])
      (λ n, Some (1000 + Z.of_nat n)%Z) (λ _ _, true)
      (λ _ _, Return [fetched "https://news.example/x" "X"])
      (λ _, Return "report").

End Scenario.

(** ** More of [utilities.py] *)

(** [check_duplicate_article], [utilities.py] lines 29-59:
    [SELECT 1 FROM articles WHERE url = %s], then [result is not None];
    any exception gives [False], also that of a URL the driver cannot
    adapt. *)
Definition check_duplicate_article (E : env) (url : string) : py bool :=
  try_except
    (let* _ := connect E in
     adapt (negb (has_nul url));;
     let* tbl := read_table in
     let result := tbl !! url in
     ret (bool_decide (is_Some result)))
    (λ _, ret false).

Definition is_append_call (ev : event) : bool :=
  match ev with
  | Call_append_articles _ => true
  | _ => false
  end.

(** ** [get_data_revised.py]: the fetch and summarise pipeline *)

Module Fetcher.

(** The result of a call: a value, a [RuntimeError] (or an exception of a
    subclass) with its text [str(e)], or another exception with its class
    and text. *)
Inductive result (A : Type) : Type :=
| Ok (a : A)
| RuntimeError (message : string)
| OtherError (class message : string).
Arguments Ok {A} a.
Arguments RuntimeError {A} message.
Arguments OtherError {A} class message.

Definition reraise {A B} (r : result A) (k : A → result B) : result B :=
  match r with
  | Ok a => k a
  | RuntimeError m => RuntimeError m
  | OtherError c m => OtherError c m
  end.

(** [str(e)] of a raised exception. *)
Definition message_of {A} (r : result A) : string :=
  match r with
  | Ok _ => ""
  | RuntimeError m => m
  | OtherError _ m => m
  end.

(** What the pipeline calls outside the repository.
    - [search query n]: [list(search(query, num_results=n))] of
      [googlesearch];
    - [http_get url]: the status code and the text of the response to the
      [requests.get] on the reader endpoint for [url];
    - [initialize_model]: loading the summarisation model;
    - [try_summarize attempt content]: the body of the [try] block of
      [safe_summarize] at the given attempt. *)
Record backend := Backend {
  search : string → nat → result (list string);
  http_get : string → result (nat * string);
  initialize_model : result unit;
  try_summarize : nat → string → result string
}.

Definition EXCLUDED_DOMAINS : list string :=
  ["youtube.com"; "youtu.be"; "vimeo.com"; "dailymotion.com"].

Definition MAX_RETRIES : nat := 2.

(** [needle in haystack] for two strings. *)
Fixpoint contains (needle haystack : string) : bool :=
  String.prefix needle haystack
  || match haystack with
     | EmptyString => false
     | String _ rest => contains needle rest
     end.

(** The loop of [get_urls], lines 70-77. *)
Fixpoint get_urls_loop (num_results : nat) (raw_urls filtered_urls : list string)
  : list string :=
  match raw_urls with
  | [] => filtered_urls
  | url :: rest =>
      if existsb (λ domain, contains domain url) EXCLUDED_DOMAINS
      then get_urls_loop num_results rest filtered_urls
      else
        let filtered_urls := filtered_urls ++ [url] in
        if num_results <=? length filtered_urls then filtered_urls
        else get_urls_loop num_results rest filtered_urls
  end.

(** [get_urls], lines 64-77. *)
Definition get_urls (B : backend) (query : string) (num_results : nat)
  : result (list string) :=
  reraise (search B query (num_results * 2))
          (λ raw_urls, Ok (get_urls_loop num_results raw_urls [])).

(** [get_clean_content], lines 79-96. *)
Definition get_clean_content (B : backend) (url : string) : result string :=
  reraise (http_get B url)
          (λ response,
             if response.1 =? 200 then Ok response.2
             else OtherError "Exception"
                    ("API Error: " +:+ pretty response.1 +:+ " - " +:+ response.2)).

(** An entry [{"url": url, "raw_content": content}]. *)
Definition entry (url content : string) : article :=
  Article (Some url) (Some content) None None None None.

(** [fetch_data], lines 98-128. *)
Definition fetch_data (B : backend) (mode : string) (query : option string)
    (url_list : option (list string)) (num_results : nat) : result (list article) :=
  let urls :=
    if bool_decide (mode = "query") then
      if truthy_str query then get_urls B (default "" query) num_results
      else OtherError "ValueError" "Query must be provided when mode is 'query'."
    else if bool_decide (mode = "urls") then
      if truthy_list url_list then Ok (default [] url_list)
      else OtherError "ValueError" "url_list must be provided when mode is 'urls'."
    else OtherError "ValueError" "Invalid mode specified. Use 'query' or 'urls'." in
  reraise urls
    (λ urls,
       Ok (map (λ url,
                  match get_clean_content B url with
                  | Ok content => entry url content
                  | failed => entry url ("Error: " +:+ message_of failed)
                  end)
               urls)).

(** The loop of [safe_summarize], lines 175-204, from attempt [attempt]
    with [remaining] attempts left of [max_retries]. *)
Fixpoint safe_summarize_loop (B : backend) (content : string)
    (max_retries attempt remaining : nat) : result string :=
  match remaining with
  | 0 => Ok "Summary error: Maximum retries exceeded"
  | S remaining' =>
      match try_summarize B attempt content with
      | Ok summary => Ok summary
      | RuntimeError m =>
          if contains "CUDA" m && (attempt <? max_retries - 1)
          then safe_summarize_loop B content max_retries (S attempt) remaining'
          else RuntimeError m
      | OtherError c m => OtherError c m
      end
  end.

(** [safe_summarize], lines 170-204. *)
Definition safe_summarize (B : backend) (content : string) : result string :=
  safe_summarize_loop B content MAX_RETRIES 0 MAX_RETRIES.

(** [process_data_for_summarization], lines 206-229. *)
Definition process_data_for_summarization (B : backend) (data : list article)
  : list article :=
  map (λ entry,
         let url := default "Unknown URL" (get_url entry) in
         let raw_content := default "" (get_raw_content entry) in
         let summary :=
           if String.prefix "Error:" raw_content then raw_content
           else match safe_summarize B raw_content with
                | Ok summary => summary
                | failed => "Summarization failed: " +:+ message_of failed
                end in
         Article (Some url) (Some raw_content) (Some summary) None None None)
      data.

(** [get_data_and_summarize], lines 235-268, with [output_file=None]. *)
Definition get_data_and_summarize (B : backend) (query : option string)
    (url_list : option (list string)) (num_results : nat) : result (list article) :=
  let mode := if truthy_str query then "query" else "urls" in
  reraise (fetch_data B mode query url_list num_results)
    (λ data,
       reraise (initialize_model B)
         (λ _, Ok (process_data_for_summarization B data))).

(** The orchestrator's collaborators with this pipeline as the fetcher:
    [supplement_data] calls [get_data_and_summarize(query=query,
    num_results=num_results, output_file=None)]. *)
Definition with_backend (B : backend) (E : env) : env :=
  Env (kw_extract_keywords E) (db_session E) (db_accepts E)
      (λ query num_results,
         match get_data_and_summarize B (Some query) None num_results with
         | Ok results => Return results
         | RuntimeError _ => Raise "RuntimeError"
         | OtherError class _ => Raise class
         end)
      (chat_completions E).

End Fetcher.

(** A backend: five search results, two of them videos; one page that
    the reader cannot fetch; a summariser whose first attempt runs out of
    GPU memory. *)
Module Newswire.

Definition backend : Fetcher.backend :=
  Fetcher.Backend
    (λ _ _, Fetcher.Ok ["https://news.example/x"; "https://www.youtube.com/watch?v=1";
                        "https://blog.example/y"; "https://vimeo.com/9";
                        "https://broken.example/z"])
    (λ url, if bool_decide (url = "https://broken.example/z")
            then Fetcher.Ok (404, "Not Found")
            else Fetcher.Ok (200, "Text of " +:+ url))
    (Fetcher.Ok ())
    (λ attempt content,
       match attempt with
       | 0 => Fetcher.RuntimeError "CUDA out of memory"
       | _ => Fetcher.Ok ("Summary of " +:+ content)
       end).

End Newswire.

(** ** [Core_Workflow/agent_langchain.py]: the agent around the orchestrator *)

Module Agent.

(** What [agent.run(query)] does with its one tool, [ReportGenerator]: it
    ends with a final answer, fails, or calls the tool on an input of its
    choice and goes on from the tool's output. *)
Inductive plan : Type :=
| Finish (final_answer : string)
| Fail (e : string)
| UseTool (tool_input : string) (next : string → plan).

(** - [instructions_chat prompt]: [client.chat.completions.create(...)]
      in [generate_dynamic_instructions], and the value of
      [response.choices[0].message.content] when it returns;
    - [agent_run query]: the model, [initialize_agent] and
      [agent.run(query)]. *)
Record collaborators := Collaborators {
  instructions_chat : string → outcome string;
  agent_run : string → plan
}.

(** The world and the module's global [last_tool_output]. *)
Record state := State {
  world_of : world;
  last_tool_output : option string
}.

Definition fallback_instructions : string :=
  "Please provide a detailed analysis focused on the technical and contextual aspects of the query. "
  +:+ "Include relevant background information and actionable insights.".

(** [generate_dynamic_instructions], lines 33-64. *)
Definition generate_dynamic_instructions (A : collaborators) (query : string) : string :=
  let prompt :=
    "Analyze the following query and generate additional prompt instructions for a detailed, research-oriented report. "
    +:+ "The instructions should focus on the core aspects of the topic, outline key areas of analysis, and specify any domain-specific "
    +:+ "guidelines that would help generate a comprehensive report. Query: '"
    +:+ query +:+ "'" in
  match instructions_chat A prompt with
  | Return content => let instructions := strip content in instructions
  | Raise _ => fallback_instructions
  end.

(** [generate_report_tool], lines 66-83. *)
Definition generate_report_tool (E : env) (A : collaborators) (query : string)
    (st : state) : outcome string * state :=
  let extra_instructions := generate_dynamic_instructions A query in
  match generate_report_for_query E query extra_instructions (world_of st) with
  | (Return report, w') => (Return report, State w' (Some report))
  | (Raise e, w') => (Raise e, State w' (last_tool_output st))
  end.

(** [agent.run(query)]: the agent's plan, each tool call being a call of
    [generate_report_tool]; an exception of the tool ends the run. *)
Fixpoint run_plan (E : env) (A : collaborators) (p : plan) (st : state)
  : outcome string * state :=
  match p with
  | Finish final_answer => (Return final_answer, st)
  | Fail e => (Raise e, st)
  | UseTool tool_input next =>
      match generate_report_tool E A tool_input st with
      | (Return report, st') => run_plan E A (next report) st'
      | (Raise e, st') => (Raise e, st')
      end
  end.

(** [run_agent], lines 104-138. *)
Definition run_agent (E : env) (A : collaborators) (query : string) (st : state)
  : outcome string * state :=
  match run_plan E A (agent_run A query) st with
  | (Raise e, st') => (Raise e, st')
  | (Return final_answer, st') =>
      let detailed :=
        if truthy_str (last_tool_output st')
        then (Return (default "" (last_tool_output st')), st')
        else generate_report_tool E A query st' in
      match detailed with
      | (Return detailed_report, st'') =>
          (Return (detailed_report +:+ nl +:+ nl +:+ "### Final Recommendation" +:+ nl
                     +:+ final_answer), st'')
      | (Raise e, st'') => (Raise e, st'')
      end
  end.

End Agent.

(** An agent that answers at once, and one that first uses its tool on a
    rephrased query. *)
Module Desk.

Definition direct : Agent.collaborators :=
  Agent.Collaborators (λ _, Raise "RateLimitError") (λ _, Agent.Finish "Hold.").

Definition diligent : Agent.collaborators :=
  Agent.Collaborators
    (λ _, Return "Compare with 2018.")
    (λ query, Agent.UseTool ("facts on " +:+ query) (λ _, Agent.Finish "Buy.")).

End Desk.

(** ** [Phase1/report_generator.py]: the earlier orchestrator *)

Module Phase1.

Definition MIN_ARTICLE_THRESHOLD : nat := 3.

(** The list comprehension at line 111:
    [[article for article in supplementary_articles
      if article["url"] not in existing_urls]]. *)
Fixpoint keep_new (existing_urls : gset string) (supplementary_articles : list article)
  : py (list article) :=
  match supplementary_articles with
  | [] => ret []
  | article :: rest =>
      let* u := subscript_url article in
      let* kept := keep_new existing_urls rest in
      ret (if bool_decide (u ∉ existing_urls) then article :: kept else kept)
  end.

(** [generate_report_for_query], lines 96-127: the value of [articles]
    when line 129 is reached. *)
Definition merged_set (E : env) (query : string) : py (list article) :=
  let* tags := extract_tags E query 5 in
  let* articles_from_db := query_database_by_tags E tags 4 in
  if length articles_from_db <? MIN_ARTICLE_THRESHOLD then
    let* supplementary_articles := supplement_data E query 5 in
    let* urls := for_each subscript_url articles_from_db in
    let existing_urls : gset string := list_to_set urls in
    let* supplementary_articles := keep_new existing_urls supplementary_articles in
    let supplementary_articles :=
      map (set_query_and_tags query tags) supplementary_articles in
    (match supplementary_articles with
     | _ :: _ => append_articles E supplementary_articles
     | [] => ret ()
     end);;
    ret (articles_from_db ++ supplementary_articles)
  else
    ret articles_from_db.

End Phase1.

(** * Properties *)

(** ** Running the store operations *)

Lemma overlap_iff_common (ts query_tags : list string) :
  array_overlap (Some ts) query_tags = true ↔ 1 ≤ size (common_tags ts query_tags).
Proof.
  unfold array_overlap, common_tags. rewrite existsb_exists. split.
  - intros (t & Hin & Hq). apply bool_decide_eq_true in Hq.
    apply list_elem_of_In in Hin.
    assert (Ht : t ∈ (list_to_set ts : gset string) ∩ list_to_set query_tags)
      by (apply elem_of_intersection; split; apply elem_of_list_to_set; done).
    destruct (decide (size ((list_to_set ts : gset string) ∩ list_to_set query_tags) = 0))
      as [Hz|Hnz]; [|lia].
    apply size_empty_iff in Hz. rewrite Hz in Ht. set_solver.
  - intros Hsz.
    destruct (set_choose_L ((list_to_set ts : gset string) ∩ list_to_set query_tags))
      as [t Ht].
    { intros Hemp. apply (f_equal size) in Hemp. rewrite size_empty in Hemp.
      unfold common_tags in Hsz. lia. }
    apply elem_of_intersection in Ht as [Ht1 Ht2].
    apply elem_of_list_to_set in Ht1. apply elem_of_list_to_set in Ht2.
    exists t. split; [by apply list_elem_of_In | by apply bool_decide_eq_true].
Qed.

Lemma select_overlapping_spec (tbl : table) (query_tags : list string) u r ts :
  (u, r, ts) ∈ select_overlapping tbl query_tags ↔
  tbl !! u = Some r ∧ col_tags r = Some ts ∧ 1 ≤ size (common_tags ts query_tags).
Proof.
  unfold select_overlapping. rewrite list_elem_of_In, in_flat_map. split.
  - intros ([k v] & Hkv & Hin). cbn [fst snd] in Hin.
    apply list_elem_of_In, elem_of_map_to_list in Hkv.
    destruct (col_tags v) as [ts'|] eqn:Htg; [|by destruct Hin].
    destruct (array_overlap (Some ts') query_tags) eqn:Hov; simpl in Hin;
      [|by destruct Hin].
    destruct Hin as [Heq|[]]. inversion Heq; subst.
    split_and!; [done|done|by apply overlap_iff_common].
  - intros (Hlk & Htg & Hsz). exists (u, r). split.
    + by apply list_elem_of_In, elem_of_map_to_list.
    + cbn [fst snd]. rewrite Htg. apply overlap_iff_common in Hsz. rewrite Hsz. by left.
Qed.

Lemma query_database_by_tags_run (E : env) (query_tags : list string) (k : Z) (w : world) :
  query_database_by_tags E query_tags k w =
  (Return
     (match db_session E (connections w) with
      | Some _ =>
          if adaptable_list query_tags then
            map (λ r : string * row * list string, dict_of_row r.1.1 r.1.2)
              (List.filter
                 (λ r : string * row * list string,
                    (k <=? Z.of_nat (size (common_tags r.2 query_tags)))%Z)
                 (select_overlapping (articles_table w) query_tags))
          else []
      | None => []
      end),
   World (articles_table w) (S (connections w))
         (calls w ++ [Call_query_database_by_tags query_tags k])).
Proof.
  unfold query_database_by_tags, bind, try_except, record_call, connect, adapt, read_table,
    ret, raise.
  simpl. destruct (db_session E (connections w)); [|done].
  by destruct (adaptable_list query_tags).
Qed.

(** An unreachable store reads as no cached article. *)
Lemma query_database_by_tags_unreachable (E : env) (query_tags : list string) (k : Z)
    (w : world) :
  db_session E (connections w) = None →
  (query_database_by_tags E query_tags k w).1 = Return [].
Proof. intros Hdown. by rewrite query_database_by_tags_run, Hdown. Qed.

Lemma dict_of_row_inj u1 r1 u2 r2 :
  dict_of_row u1 r1 = dict_of_row u2 r2 → u1 = u2 ∧ r1 = r2.
Proof.
  destruct r1, r2. unfold dict_of_row. simpl. intros H. inversion H. done.
Qed.

Lemma select_overlapping_NoDup (tbl : table) (query_tags : list string) :
  NoDup (map (λ r : string * row * list string, r.1.1) (select_overlapping tbl query_tags)).
Proof.
  unfold select_overlapping.
  pose proof (NoDup_fst_map_to_list tbl) as Hnd.
  induction (map_to_list tbl) as [|[k v] l IH]; [constructor|].
  cbn [flat_map fst snd]. simpl in Hnd. apply NoDup_cons in Hnd as [Hk Hnd].
  destruct (col_tags v) as [ts|]; [|by apply IH].
  destruct (array_overlap (Some ts) query_tags); [|by apply IH].
  cbn [app map fst snd]. apply NoDup_cons. split; [|by apply IH].
  intros Hin. apply Hk. apply list_elem_of_In, in_map_iff in Hin.
  destruct Hin as ([[u r] ts'] & Heq & Hin). simpl in Heq. subst u.
  apply in_flat_map in Hin as ([k' v'] & Hin & Hx). cbn [fst snd] in Hx.
  destruct (col_tags v'); [|by destruct Hx].
  destruct (array_overlap _ _); simpl in Hx; [|by destruct Hx].
  destruct Hx as [Hx|[]]. inversion Hx; subst.
  apply list_elem_of_fmap. exists (k, r). split; [done|by apply list_elem_of_In].
Qed.

(** ** The tag query *)

Lemma shared_tags_Some (r : row) (ts query_tags : list string) :
  col_tags r = Some ts → shared_tags r query_tags = size (common_tags ts query_tags).
Proof. unfold shared_tags. by intros ->. Qed.

Lemma shared_tags_None (r : row) (query_tags : list string) :
  col_tags r = None → shared_tags r query_tags = 0.
Proof.
  unfold shared_tags, common_tags. intros ->. simpl.
  rewrite intersection_empty_l_L. apply size_empty.
Qed.

(** C2, as stated, fails when [min_matches] is not positive: a stored
    article sharing no tag with the query meets the bound [0] and is not
    returned, because the statement's [&&] test has already dropped it. *)
Lemma query_by_tags_zero_bound_misses :
  ¬ (∀ (E : env) (w : world) (query_tags : list string) (min_matches : Z)
       (results : list article) (w' : world) (u : string) (r : row),
        is_Some (db_session E (connections w)) →
        query_database_by_tags E query_tags min_matches w = (Return results, w') →
        articles_table w !! u = Some r →
        (min_matches ≤ Z.of_nat (shared_tags r query_tags))%Z →
        dict_of_row u r ∈ results).
Proof.
  intros H.
  specialize (H Scenario.quiet Scenario.one_row ["china"] 0%Z []
                (query_database_by_tags Scenario.quiet ["china"] 0 Scenario.one_row).2
                "https://example.com/a" Scenario.trump_row).
  apply not_elem_of_nil in H; [done| by eexists | by vm_compute | by vm_compute |].
  vm_compute. done.
Qed.

(** A positive bound is not enough either: for a tag list that the
    driver cannot adapt the statement is never sent, the handler returns no
    article, and a stored article that shares a tag with the query is
    missed. *)
Lemma query_by_tags_nul_tag_misses :
  ¬ (∀ (E : env) (w : world) (query_tags : list string) (min_matches : Z)
       (results : list article) (w' : world) (u : string) (r : row),
        is_Some (db_session E (connections w)) →
        (1 ≤ min_matches)%Z →
        query_database_by_tags E query_tags min_matches w = (Return results, w') →
        articles_table w !! u = Some r →
        (min_matches ≤ Z.of_nat (shared_tags r query_tags))%Z →
        dict_of_row u r ∈ results).
Proof.
  intros H.
  specialize (H Scenario.quiet Scenario.one_row ["tariff"; String Ascii.zero "x"] 1%Z []
                (query_database_by_tags Scenario.quiet ["tariff"; String Ascii.zero "x"] 1
                   Scenario.one_row).2
                "https://example.com/a" Scenario.trump_row).
  apply not_elem_of_nil in H; [done| by eexists | done | by vm_compute | by vm_compute |].
  vm_compute. done.
Qed.

(** C2 (amended): with the store reachable and a tag list that the
    driver can adapt (no tag holds a NUL character),
    [query_database_by_tags] returns, each once, exactly the stored
    articles that share at least [max 1 min_matches] tags with the query
    tag set, and leaves the table as it was.  For [min_matches >= 1] this
    is the bound [min_matches]. *)
Theorem query_database_by_tags_exact (E : env) (w : world)
    (query_tags : list string) (min_matches : Z) :
  is_Some (db_session E (connections w)) →
  adaptable_list query_tags = true →
  ∃ (results : list article) (w' : world),
    query_database_by_tags E query_tags min_matches w = (Return results, w')
    ∧ articles_table w' = articles_table w
    ∧ NoDup results
    ∧ ∀ a : article,
        a ∈ results ↔
        ∃ (u : string) (r : row),
          a = dict_of_row u r ∧ articles_table w !! u = Some r
          ∧ (Z.max 1 min_matches ≤ Z.of_nat (shared_tags r query_tags))%Z.
Proof.
  intros [t Ht] Hqt. rewrite query_database_by_tags_run, Ht, Hqt.
  eexists _, _. split; [reflexivity|]. split; [done|]. split.
  - pose proof (select_overlapping_NoDup (articles_table w) query_tags) as Hnd.
    induction (select_overlapping (articles_table w) query_tags) as [|[[u r] ts] l IH];
      [constructor|].
    cbn [map fst snd] in Hnd. apply NoDup_cons in Hnd as [Hu Hnd].
    cbn [List.filter fst snd]. destruct (_ <=? _)%Z; [|by apply IH].
    cbn [map fst snd]. apply NoDup_cons. split; [|by apply IH].
    intros Hin. apply Hu. apply list_elem_of_In, in_map_iff in Hin.
    destruct Hin as ([[u' r'] ts'] & Heq & Hin). cbn [fst snd] in Heq.
    apply dict_of_row_inj in Heq as [-> ->].
    apply filter_In in Hin as [Hin _].
    apply list_elem_of_In, in_map_iff. by exists (u, r, ts').
  - intros a. rewrite list_elem_of_In, in_map_iff. split.
    + intros ([[u r] ts] & <- & Hin). cbn [fst snd].
      apply filter_In in Hin as [Hin Hk]. cbn [fst snd] in Hk.
      apply list_elem_of_In, select_overlapping_spec in Hin as (Hlk & Htg & Hone).
      exists u, r. split_and!; [done|done|].
      rewrite (shared_tags_Some _ _ _ Htg). apply Z.leb_le in Hk. lia.
    + intros (u & r & -> & Hlk & Hk).
      destruct (col_tags r) as [ts|] eqn:Htg.
      * rewrite (shared_tags_Some _ _ _ Htg) in Hk.
        exists (u, r, ts). split; [done|]. apply filter_In. split.
        -- apply list_elem_of_In, select_overlapping_spec. split_and!; [done|done|lia].
        -- cbn [fst snd]. apply Z.leb_le. lia.
      * rewrite (shared_tags_None _ _ Htg) in Hk. lia.
Qed.

Lemma query_database_by_tags_exact_witness :
  ∃ (results : list article) (w' : world),
    query_database_by_tags Scenario.quiet ["tariff"; "china"] 1 Scenario.one_row
      = (Return results, w')
    ∧ articles_table w' = articles_table Scenario.one_row
    ∧ NoDup results
    ∧ ∀ a : article,
        a ∈ results ↔
        ∃ (u : string) (r : row),
          a = dict_of_row u r ∧ articles_table Scenario.one_row !! u = Some r
          ∧ (Z.max 1 1 ≤ Z.of_nat (shared_tags r ["tariff"; "china"]))%Z.
Proof.
  apply (query_database_by_tags_exact Scenario.quiet Scenario.one_row ["tariff"; "china"] 1).
  - vm_compute. by eexists.
  - reflexivity.
Defined.

(** ** Pages of [execute_values] *)

Section Pages.
Context (statement : list tuple → table → option table).

Lemma run_pages_failed (pages : list (list tuple)) :
  run_pages statement pages None = None.
Proof. unfold run_pages. by induction pages. Qed.

Lemma run_pages_cons (page : list tuple) (pages : list (list tuple)) (tb : table) :
  run_pages statement (page :: pages) (Some tb)
  = run_pages statement pages (statement page tb).
Proof. done. Qed.

(** An invariant of every successful statement holds after all pages. *)
Lemma run_pages_invariant (P : table → Prop) (pages : list (list tuple)) :
  (∀ page tb tb', page ∈ pages → statement page tb = Some tb' → P tb → P tb') →
  ∀ tbl tbl', run_pages statement pages (Some tbl) = Some tbl' → P tbl → P tbl'.
Proof.
  induction pages as [|page pages IH]; intros Hstep tbl tbl' Hrun HP.
  - cbn in Hrun. by inversion Hrun; subst.
  - rewrite run_pages_cons in Hrun. destruct (statement page tbl) as [tb|] eqn:Hst.
    + eapply IH; [|exact Hrun|].
      * intros pg tb1 tb2 Hpg. apply Hstep. by right.
      * eapply Hstep; [by left|exact Hst|exact HP].
    + by rewrite run_pages_failed in Hrun.
Qed.

Lemma execute_values_invariant (P : table → Prop) (argslist : list tuple) :
  (∀ page tb tb', page ∈ paginate 100 argslist →
                  statement page tb = Some tb' → P tb → P tb') →
  ∀ tbl tbl', execute_values statement argslist tbl = Some tbl' → P tbl → P tbl'.
Proof. apply run_pages_invariant. Qed.

End Pages.

Lemma paginate_go_concat {A} (fuel n : nat) (seq : list A) :
  length seq ≤ fuel → concat (paginate_go fuel (S n) seq) = seq.
Proof.
  revert seq. induction fuel as [|fuel IH]; intros [|x seq] Hlen; try done.
  - simpl in Hlen. lia.
  - cbn [paginate_go concat]. rewrite IH.
    + apply take_drop.
    + rewrite length_drop. simpl in *. lia.
Qed.

Lemma paginate_concat {A} (n : nat) (seq : list A) :
  concat (paginate (S n) seq) = seq.
Proof. by apply paginate_go_concat. Qed.

Lemma paginate_elem {A} (n : nat) (seq page : list A) (x : A) :
  page ∈ paginate (S n) seq → x ∈ page → x ∈ seq.
Proof.
  intros Hpage Hx. rewrite <- (paginate_concat n seq).
  apply list_elem_of_In, in_concat. exists page. by rewrite <- !list_elem_of_In.
Qed.

(** ** Insert-or-skip *)

(** A statement that succeeds took its first tuple: the tuple was
    accepted and has a key. *)
Lemma insert_do_nothing_cons (accepts : tuple → bool) (t : Z) (url : option string)
    (s q : option string) (tg : option (list string)) (rest : list tuple)
    (tbl tbl' : table) :
  insert_do_nothing accepts t ((url, s, q, tg) :: rest) tbl = Some tbl' →
  ∃ u, url = Some u ∧ accepts (Some u, s, q, tg) = true
       ∧ insert_do_nothing accepts t rest
           (match tbl !! u with
            | Some _ => tbl
            | None => <[u := inserted_row t s q tg]> tbl
            end) = Some tbl'.
Proof.
  cbn [insert_do_nothing]. destruct url as [u|].
  - destruct (accepts (Some u, s, q, tg)) eqn:Hacc; cbn [negb]; [|done].
    intros Hrun. exists u. split_and!; [done|done|]. by destruct (tbl !! u).
  - by destruct (accepts (None, s, q, tg)).
Qed.

Lemma insert_do_nothing_keeps (accepts : tuple → bool) (t : Z) (values : list tuple)
    (tbl tbl' : table) (u : string) (r : row) :
  insert_do_nothing accepts t values tbl = Some tbl' →
  tbl !! u = Some r → tbl' !! u = Some r.
Proof.
  revert tbl. induction values as [|[[[url s] q] tg] rest IH]; intros tbl Hrun Hlk.
  - cbn in Hrun. by inversion Hrun; subst.
  - apply insert_do_nothing_cons in Hrun as (k & -> & _ & Hrun).
    eapply IH; [exact Hrun|]. destruct (tbl !! k) eqn:Hk; [done|].
    rewrite lookup_insert_ne; [done|]. by intros ->; congruence.
Qed.

Lemma insert_do_nothing_all_stored (accepts : tuple → bool) (t : Z)
    (values : list tuple) (tbl tbl' : table) :
  insert_do_nothing accepts t values tbl = Some tbl' →
  (∀ v, v ∈ values → ∃ u, v.1.1.1 = Some u ∧ is_Some (tbl !! u)) →
  tbl' = tbl.
Proof.
  induction values as [|[[[url s] q] tg] rest IH]; intros Hrun Hall.
  - cbn in Hrun. congruence.
  - apply insert_do_nothing_cons in Hrun as (k & -> & _ & Hrun).
    destruct (Hall (Some k, s, q, tg)) as (u & Hu & [r Hr]); [by left|].
    cbn [fst] in Hu. injection Hu as <-. rewrite Hr in Hrun.
    apply IH; [done|]. intros v Hv. apply Hall. by right.
Qed.

(** A row [insert_do_nothing] adds comes from one of the tuples. *)
Lemma insert_do_nothing_new (accepts : tuple → bool) (t : Z) (values : list tuple)
    (tbl tbl' : table) (u : string) (r : row) :
  insert_do_nothing accepts t values tbl = Some tbl' →
  tbl !! u = None → tbl' !! u = Some r →
  ∃ s q tg, (Some u, s, q, tg) ∈ values ∧ r = inserted_row t s q tg.
Proof.
  revert tbl. induction values as [|[[[url s] q] tg] rest IH]; intros tbl Hrun Hno Hlk.
  - cbn in Hrun. inversion Hrun; subst. congruence.
  - apply insert_do_nothing_cons in Hrun as (k & -> & _ & Hrun).
    destruct (tbl !! k) eqn:Hk.
    + destruct (IH _ Hrun Hno Hlk) as (s' & q' & tg' & Hin & ->).
      exists s', q', tg'. split; [by right|done].
    + destruct (decide (k = u)) as [->|Hne].
      * exists s, q, tg. split; [by left|].
        assert (Hins : <[u:=inserted_row t s q tg]> tbl !! u = Some (inserted_row t s q tg))
          by apply lookup_insert_eq.
        pose proof (insert_do_nothing_keeps _ _ _ _ _ _ _ Hrun Hins). congruence.
      * rewrite <- (lookup_insert_ne tbl k u (inserted_row t s q tg)) in Hno by done.
        destruct (IH _ Hrun Hno Hlk) as (s' & q' & tg' & Hin & ->).
        exists s', q', tg'. split; [by right|done].
Qed.

Lemma insert_do_nothing_other (accepts : tuple → bool) (t : Z) (values : list tuple)
    (tbl tbl' : table) (u : string) :
  insert_do_nothing accepts t values tbl = Some tbl' →
  (∀ v, v ∈ values → v.1.1.1 ≠ Some u) → tbl' !! u = tbl !! u.
Proof.
  revert tbl. induction values as [|[[[url s] q] tg] rest IH]; intros tbl Hrun Hno.
  - cbn in Hrun. by inversion Hrun.
  - apply insert_do_nothing_cons in Hrun as (k & -> & _ & Hrun).
    assert (Hrest : ∀ v, v ∈ rest → v.1.1.1 ≠ Some u) by (intros v Hv; apply Hno; by right).
    rewrite (IH _ Hrun Hrest). destruct (tbl !! k) eqn:Hk; [done|].
    apply lookup_insert_ne. intros ->. by apply (Hno (Some u, s, q, tg)); [left|].
Qed.

(** For insert-or-skip the pages do not matter. *)
Lemma insert_do_nothing_app (accepts : tuple → bool) (t : Z)
    (values1 values2 : list tuple) (tbl : table) :
  insert_do_nothing accepts t (values1 ++ values2) tbl
  = match insert_do_nothing accepts t values1 tbl with
    | Some tb => insert_do_nothing accepts t values2 tb
    | None => None
    end.
Proof.
  revert tbl. induction values1 as [|[[[url s] q] tg] rest IH]; intros tbl; [done|].
  cbn [app insert_do_nothing]. destruct (negb (accepts (url, s, q, tg))); [done|].
  destruct url as [k|]; [|done]. destruct (tbl !! k); apply IH.
Qed.

Lemma run_pages_insert_do_nothing (accepts : tuple → bool) (t : Z)
    (pages : list (list tuple)) (tbl : table) :
  run_pages (insert_do_nothing accepts t) pages (Some tbl)
  = insert_do_nothing accepts t (concat pages) tbl.
Proof.
  revert tbl. induction pages as [|page pages IH]; intros tbl; [done|].
  rewrite run_pages_cons. cbn [concat]. rewrite insert_do_nothing_app.
  destruct (insert_do_nothing accepts t page tbl); [apply IH|apply run_pages_failed].
Qed.

Lemma execute_values_insert_do_nothing (accepts : tuple → bool) (t : Z)
    (argslist : list tuple) (tbl : table) :
  execute_values (insert_do_nothing accepts t) argslist tbl
  = insert_do_nothing accepts t argslist tbl.
Proof.
  unfold execute_values. by rewrite run_pages_insert_do_nothing, paginate_concat.
Qed.

(** A row [insert_do_nothing] adds comes from the first tuple with its
    key. *)
Lemma insert_do_nothing_new_first (accepts : tuple → bool) (t : Z) (values : list tuple)
    (tbl tbl' : table) (u : string) (r : row) :
  insert_do_nothing accepts t values tbl = Some tbl' →
  tbl !! u = None → tbl' !! u = Some r →
  ∃ pre s q tg post,
    values = pre ++ (Some u, s, q, tg) :: post
    ∧ (∀ v, v ∈ pre → v.1.1.1 ≠ Some u)
    ∧ r = inserted_row t s q tg.
Proof.
  revert tbl. induction values as [|[[[url s] q] tg] rest IH]; intros tbl Hrun Hno Hlk.
  - cbn in Hrun. inversion Hrun; subst. congruence.
  - apply insert_do_nothing_cons in Hrun as (k & -> & _ & Hrun).
    destruct (decide (k = u)) as [->|Hne].
    + rewrite Hno in Hrun. exists [], s, q, tg, rest. split_and!; [done| |].
      * intros v Hv. by apply not_elem_of_nil in Hv.
      * assert (Hins : <[u:=inserted_row t s q tg]> tbl !! u
                       = Some (inserted_row t s q tg)) by apply lookup_insert_eq.
        pose proof (insert_do_nothing_keeps _ _ _ _ _ _ _ Hrun Hins). congruence.
    + destruct (IH _ Hrun) as (pre & s' & q' & tg' & post & -> & Hpre & ->); [|done|].
      { destruct (tbl !! k); [done|]. by rewrite lookup_insert_ne. }
      exists ((Some k, s, q, tg) :: pre), s', q', tg', post. split_and!; [done| |done].
      intros v [->|Hv]%elem_of_cons; [|by apply Hpre]. cbn [fst]. congruence.
Qed.

Lemma append_articles_run (E : env) (articles : list article) (w : world) :
  append_articles E articles w =
  (Return (),
   World (match db_session E (connections w) with
          | Some t =>
              default (articles_table w)
                (execute_values (insert_do_nothing (accepted E (connections w)) t)
                   (map data_tuple articles) (articles_table w))
          | None => articles_table w
          end)
         (S (connections w))
         (calls w ++ [Call_append_articles articles])).
Proof.
  unfold append_articles, bind, try_except, record_call, connect, current_session,
    read_table, ret, commit, raise.
  simpl. destruct (db_session E (connections w)); [|done].
  by destruct (execute_values _ _ _).
Qed.

(** Existing row wins: [append_articles] never changes a stored row. *)
Lemma append_articles_existing_row_wins (E : env) (articles : list article) (w : world)
    (u : string) (r : row) :
  articles_table w !! u = Some r →
  articles_table (append_articles E articles w).2 !! u = Some r.
Proof.
  intros Hlk. rewrite append_articles_run. cbn [snd articles_table].
  destruct (db_session E (connections w)) as [t|]; [|done].
  destruct (execute_values _ _ _) as [tbl'|] eqn:Hrun; [|done]. simpl.
  revert Hrun Hlk. apply (execute_values_invariant _ (λ tb, tb !! u = Some r)).
  intros page tb tb' _. apply insert_do_nothing_keeps.
Qed.

(** A batch whose URLs are all stored leaves the table as it is. *)
Lemma append_articles_all_stored (E : env) (articles : list article) (w : world) :
  (∀ a, a ∈ articles → ∃ u, get_url a = Some u ∧ is_Some (articles_table w !! u)) →
  articles_table (append_articles E articles w).2 = articles_table w.
Proof.
  intros Hall. rewrite append_articles_run. cbn [snd articles_table].
  destruct (db_session E (connections w)) as [t|]; [|done].
  destruct (execute_values _ _ _) as [tbl'|] eqn:Hrun; [|done]. simpl.
  refine (execute_values_invariant _ (λ tb, tb = articles_table w) _ _ _ _ Hrun eq_refl).
  intros page tb tb' Hpage Hst ->.
  eapply insert_do_nothing_all_stored; [exact Hst|].
  intros v Hv. pose proof (paginate_elem 99 _ _ _ Hpage Hv) as Hin.
  apply list_elem_of_In, in_map_iff in Hin as (a & <- & Ha).
  apply Hall. by apply list_elem_of_In.
Qed.

(** C5: once a URL is stored, appending an article with that URL again
    through [append_articles] changes nothing: the row is the one the first
    append left, and so is the whole table. *)
Theorem append_articles_idempotent (E : env) (w : world) (a a' : article)
    (u : string) (r : row) :
  get_url a = Some u → get_url a' = Some u →
  articles_table (append_articles E [a] w).2 !! u = Some r →
  let w1 := (append_articles E [a] w).2 in
  let w2 := (append_articles E [a'] w1).2 in
  articles_table w2 !! u = Some r ∧ articles_table w2 = articles_table w1.
Proof.
  intros Hu Hu' Hr w1 w2. split.
  - by apply append_articles_existing_row_wins.
  - apply append_articles_all_stored. intros b Hb.
    apply list_elem_of_singleton in Hb as ->. exists u. split; [done|by eexists].
Qed.

Lemma append_articles_idempotent_witness :
  let w1 := (append_articles Scenario.quiet [Scenario.tariff_article]
               Scenario.empty_store).2 in
  let w2 := (append_articles Scenario.quiet [Scenario.tariff_article] w1).2 in
  articles_table w2 !! "https://example.com/a"
    = Some (Row (Some "Tariff news") (Some "tariff rules") (Some ["trump"; "tariff"]) 1000)
  ∧ articles_table w2 = articles_table w1.
Proof.
  apply (append_articles_idempotent Scenario.quiet Scenario.empty_store
           Scenario.tariff_article Scenario.tariff_article "https://example.com/a").
  - reflexivity.
  - reflexivity.
  - vm_compute. reflexivity.
Defined.

(** ** Insert-or-update *)

Lemma insert_do_update_cons (accepts : tuple → bool) (t : Z) (url : option string)
    (s q : option string) (tg : option (list string)) (rest : list tuple)
    (touched : gset string) (tbl tbl' : table) :
  insert_do_update accepts t ((url, s, q, tg) :: rest) touched tbl = Some tbl' →
  ∃ u, url = Some u ∧ accepts (Some u, s, q, tg) = true ∧ (u ∉ touched)
       ∧ insert_do_update accepts t rest ({[u]} ∪ touched) (<[u := Row s q tg t]> tbl)
         = Some tbl'.
Proof.
  cbn [insert_do_update]. destruct url as [u|].
  - destruct (accepts (Some u, s, q, tg)) eqn:Hacc; cbn [negb]; [|done].
    case_bool_decide as Hk; [done|]. intros Hrun. by exists u.
  - by destruct (accepts (None, s, q, tg)).
Qed.

Lemma insert_do_update_touched (accepts : tuple → bool) (t : Z) (values : list tuple)
    (touched : gset string) (tbl tbl' : table) (u : string) :
  insert_do_update accepts t values touched tbl = Some tbl' →
  u ∈ touched → tbl' !! u = tbl !! u.
Proof.
  revert touched tbl. induction values as [|[[[url s] q] tg] rest IH];
    intros touched tbl Hrun Hu.
  - cbn in Hrun. by inversion Hrun.
  - apply insert_do_update_cons in Hrun as (k & -> & _ & Hk & Hrun).
    rewrite (IH _ _ Hrun) by set_solver.
    apply lookup_insert_ne. by intros ->.
Qed.

Lemma insert_do_update_written (accepts : tuple → bool) (t : Z) (values : list tuple)
    (touched : gset string) (tbl tbl' : table) (u : string) (s q : option string)
    (tg : option (list string)) :
  insert_do_update accepts t values touched tbl = Some tbl' →
  (Some u, s, q, tg) ∈ values → tbl' !! u = Some (Row s q tg t).
Proof.
  revert touched tbl. induction values as [|[[[url s'] q'] tg'] rest IH];
    intros touched tbl Hrun Hin.
  - by apply not_elem_of_nil in Hin.
  - apply insert_do_update_cons in Hrun as (k & -> & _ & Hk & Hrun).
    apply elem_of_cons in Hin as [Heq|Hin].
    + inversion Heq; subst.
      rewrite (insert_do_update_touched _ _ _ _ _ _ k Hrun) by set_solver.
      apply lookup_insert_eq.
    + by eapply IH.
Qed.

Lemma insert_do_update_other (accepts : tuple → bool) (t : Z) (values : list tuple)
    (touched : gset string) (tbl tbl' : table) (u : string) :
  insert_do_update accepts t values touched tbl = Some tbl' →
  (∀ v, v ∈ values → v.1.1.1 ≠ Some u) → tbl' !! u = tbl !! u.
Proof.
  revert touched tbl. induction values as [|[[[url s] q] tg] rest IH];
    intros touched tbl Hrun Hno.
  - cbn in Hrun. by inversion Hrun.
  - apply insert_do_update_cons in Hrun as (k & -> & _ & Hk & Hrun).
    rewrite (IH _ _ Hrun) by (intros v Hv; apply Hno; by right).
    apply lookup_insert_ne. intros ->. by apply (Hno (Some u, s, q, tg)); [left|].
Qed.

Lemma insert_do_update_succeeds (accepts : tuple → bool) (t : Z) (values : list tuple)
    (touched : gset string) (tbl : table) :
  (∀ v, v ∈ values → accepts v = true) →
  NoDup (map (λ v : tuple, v.1.1.1) values) →
  (∀ v, v ∈ values → ∃ u, v.1.1.1 = Some u ∧ u ∉ touched) →
  is_Some (insert_do_update accepts t values touched tbl).
Proof.
  revert touched tbl. induction values as [|[[[k s] q] tg] rest IH];
    intros touched tbl Hacc Hnd Hall; [by eexists|].
  destruct (Hall (k, s, q, tg)) as (u & Hu & Hfresh); [by left|].
  cbn [fst] in Hu. subst k. cbn [insert_do_update].
  rewrite (Hacc (Some u, s, q, tg)) by (by left). cbn [negb].
  rewrite bool_decide_eq_false_2 by done.
  cbn [map fst] in Hnd. apply NoDup_cons in Hnd as [Hhd Hnd].
  apply IH; [intros v Hv; apply Hacc; by right|done|]. intros v Hv.
  destruct (Hall v) as (u' & Hu' & Hfresh'); [by right|].
  exists u'. split; [done|]. apply not_elem_of_union. split; [|done].
  intros ->%elem_of_singleton. apply Hhd.
  apply list_elem_of_In, in_map_iff. exists v. split; [done|by apply list_elem_of_In].
Qed.

Lemma store_articles_run (E : env) (articles : list article) (w : world) :
  store_articles E articles w =
  (Return (),
   World (match db_session E (connections w) with
          | Some t =>
              default (articles_table w)
                (execute_values
                   (λ page, insert_do_update (accepted E (connections w)) t page ∅)
                   (map data_tuple articles) (articles_table w))
          | None => articles_table w
          end)
         (S (connections w))
         (calls w ++ [Call_store_articles articles])).
Proof.
  unfold store_articles, bind, try_except, record_call, connect, current_session,
    read_table, ret, commit, raise.
  simpl. destruct (db_session E (connections w)); [|done].
  by destruct (execute_values _ _ _).
Qed.

(** With accepted tuples of distinct, non-null URLs every page of an
    insert-or-update succeeds, each tuple's row is written once, and the
    other rows stay. *)
Lemma run_update_pages (accepts : tuple → bool) (t : Z) (pages : list (list tuple))
    (tbl : table) :
  (∀ v, v ∈ concat pages → accepts v = true) →
  NoDup (map (λ v : tuple, v.1.1.1) (concat pages)) →
  (∀ v, v ∈ concat pages → is_Some v.1.1.1) →
  ∃ tbl', run_pages (λ page, insert_do_update accepts t page ∅) pages (Some tbl) = Some tbl'
    ∧ (∀ u s q tg, (Some u, s, q, tg) ∈ concat pages → tbl' !! u = Some (Row s q tg t))
    ∧ (∀ u, (∀ v, v ∈ concat pages → v.1.1.1 ≠ Some u) → tbl' !! u = tbl !! u).
Proof.
  revert tbl. induction pages as [|page pages IH]; intros tbl Hacc Hnd Hall.
  - exists tbl. split_and!; [done| |done].
    intros u s q tg Hin. by apply not_elem_of_nil in Hin.
  - cbn [concat] in Hacc, Hnd, Hall. rewrite map_app in Hnd.
    apply NoDup_app in Hnd as (Hnd1 & Hdisj & Hnd2).
    destruct (insert_do_update_succeeds accepts t page ∅ tbl) as [tb1 Hst]; [|done|..].
    { intros v Hv. apply Hacc, elem_of_app. by left. }
    { intros v Hv. destruct (Hall v) as [u Hu]; [apply elem_of_app; by left|].
      exists u. split; [done|set_solver]. }
    destruct (IH tb1) as (tbl' & Hrun & Hwritten & Hother); [|done|..].
    { intros v Hv. apply Hacc, elem_of_app. by right. }
    { intros v Hv. apply Hall, elem_of_app. by right. }
    exists tbl'. rewrite run_pages_cons, Hst. cbn [concat]. split_and!; [done| |].
    + intros u s q tg [Hin|Hin]%elem_of_app.
      * rewrite Hother; [by eapply insert_do_update_written|].
        intros v Hv Hu. apply (Hdisj (Some u)).
        -- apply list_elem_of_In, in_map_iff. exists (Some u, s, q, tg).
           split; [done|by apply list_elem_of_In].
        -- apply list_elem_of_In, in_map_iff. exists v.
           split; [done|by apply list_elem_of_In].
      * by apply Hwritten.
    + intros u Hno. rewrite Hother.
      * eapply insert_do_update_other; [exact Hst|].
        intros v Hv. apply Hno, elem_of_app. by left.
      * intros v Hv. apply Hno, elem_of_app. by right.
Qed.

(** The table [store_articles] leaves for an accepted batch of distinct
    URLs. *)
Lemma store_articles_table (E : env) (articles : list article) (w : world) (t : Z) :
  db_session E (connections w) = Some t →
  (∀ a, a ∈ articles → accepted E (connections w) (data_tuple a) = true) →
  NoDup (map get_url articles) →
  (∀ a, a ∈ articles → is_Some (get_url a)) →
  let tbl' := articles_table (store_articles E articles w).2 in
  (∀ a u, a ∈ articles → get_url a = Some u →
          tbl' !! u = Some (Row (get_summary a) (get_query a) (get_tags a) t))
  ∧ (∀ u, (∀ a, a ∈ articles → get_url a ≠ Some u) → tbl' !! u = articles_table w !! u).
Proof.
  intros Ht Hacc Hnd Hall tbl'. subst tbl'. rewrite store_articles_run, Ht.
  cbn [snd articles_table]. unfold execute_values.
  destruct (run_update_pages (accepted E (connections w)) t
              (paginate 100 (map data_tuple articles)) (articles_table w))
    as (tb & Hrun & Hwritten & Hother).
  - rewrite paginate_concat. intros v Hv.
    apply list_elem_of_In, in_map_iff in Hv as (a & <- & Ha).
    apply Hacc. by apply list_elem_of_In.
  - rewrite paginate_concat, map_map. exact Hnd.
  - rewrite paginate_concat. intros v Hv.
    apply list_elem_of_In, in_map_iff in Hv as (a & <- & Ha).
    apply Hall. by apply list_elem_of_In.
  - rewrite paginate_concat in Hwritten, Hother. rewrite Hrun. cbn [default]. split.
    + intros a u Ha Hu. apply Hwritten.
      apply list_elem_of_In, in_map_iff. exists a. unfold data_tuple. rewrite Hu.
      split; [done|by apply list_elem_of_In].
    + intros u Hno. apply Hother. intros v Hv.
      apply list_elem_of_In, in_map_iff in Hv as (a & <- & Ha).
      apply Hno. by apply list_elem_of_In.
Qed.

(** C6, as stated, fails when the clock of the store has not advanced
    past the stamp of the stored row: [NOW()] is the start time of the
    transaction, and a second write that reads the same time leaves the
    stamp where it was.  Here the row is written and rewritten at the
    reading [1000]. *)
Lemma store_articles_same_clock_reading :
  ¬ (∀ (E : env) (w : world) (a : article) (u : string) (r : row),
        is_Some (db_session E (connections w)) →
        batch_accepted E w [a] →
        get_url a = Some u →
        articles_table w !! u = Some r →
        get_summary a ≠ col_summary r →
        get_tags a ≠ col_tags r →
        ∃ r', articles_table (store_articles E [a] w).2 !! u = Some r'
          ∧ col_summary r' = get_summary a
          ∧ col_query r' = get_query a
          ∧ col_tags r' = get_tags a
          ∧ (col_retrieval_timestamp r < col_retrieval_timestamp r')%Z).
Proof.
  intros H.
  destruct (H Scenario.frozen_clock
              (store_articles Scenario.frozen_clock [Scenario.tariff_article]
                 Scenario.empty_store).2
              Scenario.revised_article "https://example.com/a"
              (Row (Some "Tariff news") (Some "tariff rules") (Some ["trump"; "tariff"])
                   1000))
    as (r' & Hlk & _ & _ & _ & Hlt).
  - by eexists.
  - intros b Hb. apply list_elem_of_singleton in Hb as ->. reflexivity.
  - reflexivity.
  - by vm_compute.
  - discriminate.
  - discriminate.
  - vm_compute in Hlk. injection Hlk as <-. by vm_compute in Hlt.
Qed.

(** C6 (amended): with the store reachable in a transaction that starts
    at [t], [store_articles] on a batch of distinct, non-null URLs that the
    store accepts replaces the summary, query and tags of a stored row by
    those of the incoming article and sets its stamp to [t], the value of
    [NOW()].  The new stamp is strictly later than the original one
    exactly when [t] is later than the original stamp. *)
Theorem store_articles_refreshes (E : env) (w : world) (articles : list article)
    (a : article) (u : string) (r : row) (t : Z) :
  db_session E (connections w) = Some t →
  batch_accepted E w articles →
  NoDup (map get_url articles) →
  (∀ b, b ∈ articles → is_Some (get_url b)) →
  a ∈ articles → get_url a = Some u →
  articles_table w !! u = Some r →
  ∃ r', articles_table (store_articles E articles w).2 !! u = Some r'
    ∧ col_summary r' = get_summary a
    ∧ col_query r' = get_query a
    ∧ col_tags r' = get_tags a
    ∧ col_retrieval_timestamp r' = t
    ∧ ((col_retrieval_timestamp r < col_retrieval_timestamp r')%Z
       ↔ (col_retrieval_timestamp r < t)%Z).
Proof.
  intros Ht Hacc Hnd Hall Ha Hu Hr.
  destruct (store_articles_table E articles w t Ht Hacc Hnd Hall) as [Hwritten _].
  exists (Row (get_summary a) (get_query a) (get_tags a) t).
  split; [by apply Hwritten|]. by cbn.
Qed.

Lemma store_articles_refreshes_witness :
  ∃ r', articles_table
          (store_articles Scenario.quiet [Scenario.revised_article] Scenario.one_row).2
          !! "https://example.com/a" = Some r'
    ∧ col_summary r' = Some "Tariffs, revised"
    ∧ col_query r' = Some "tariff rules 2"
    ∧ col_tags r' = Some ["tariff"; "china"]
    ∧ col_retrieval_timestamp r' = 1000%Z
    ∧ ((10 < col_retrieval_timestamp r')%Z ↔ (10 < 1000)%Z).
Proof.
  apply (store_articles_refreshes Scenario.quiet Scenario.one_row
           [Scenario.revised_article] Scenario.revised_article
           "https://example.com/a" Scenario.trump_row 1000).
  - reflexivity.
  - intros b Hb. apply list_elem_of_singleton in Hb as ->. reflexivity.
  - apply NoDup_singleton.
  - intros b Hb. apply list_elem_of_singleton in Hb as ->. by eexists.
  - by left.
  - reflexivity.
  - vm_compute. reflexivity.
Defined.

(** ** Running the orchestrator *)

Lemma count_calls_app (p : event → bool) (l l' : list event) :
  count_calls p (l ++ l') = count_calls p l + count_calls p l'.
Proof. unfold count_calls. by rewrite List.filter_app, length_app. Qed.

Lemma extract_tags_run (E : env) (query : string) (top_n : nat) (w : world) :
  extract_tags E query top_n w =
  (match kw_extract_keywords E query top_n with
   | Return keywords =>
       Return (map fst (List.filter (λ ks : string * Q, negb (Qle_bool ks.2 threshold))
                                    keywords))
   | Raise e => Raise e
   end,
   World (articles_table w) (connections w)
         (calls w ++ [Call_extract_keywords query top_n])).
Proof.
  unfold extract_tags, extract_keywords, bind, record_call, ret. simpl.
  by destruct (kw_extract_keywords E query top_n).
Qed.

Lemma supplement_data_run (E : env) (query : string) (num_results : nat) (w : world) :
  supplement_data E query num_results w =
  (Return (if bool_decide (query = "") then []
           else match search_and_summarize E query num_results with
                | Return results => results
                | Raise _ => []
                end),
   World (articles_table w) (connections w)
         (calls w ++ [Call_get_data_and_summarize query num_results])).
Proof.
  unfold supplement_data, get_data_and_summarize, try_except, bind, record_call, ret, raise.
  simpl. case_bool_decide; [done|].
  by destruct (search_and_summarize E query num_results).
Qed.

Lemma generate_analysis_report_run (E : env) (context query extra : string) (w : world) :
  generate_analysis_report E context query extra w =
  (Return (match chat_completions E (build_prompt context query extra) with
           | Return content => strip content
           | Raise _ => "Error generating report."
           end),
   World (articles_table w) (connections w)
         (calls w ++ [Call_chat_completions (build_prompt context query extra)])).
Proof.
  unfold generate_analysis_report, try_except, bind, record_call, ret.
  cbn [fst snd articles_table connections calls].
  by destruct (chat_completions E (build_prompt context query extra)).
Qed.

(** [strip] on a padded answer, and on one padded with a no-break space
    (U+00A0) and an ideographic space (U+3000). *)
Example strip_padded_answer :
  strip (nl +:+ "  The  report. " +:+ nl) = "The  report."
  ∧ strip (String (Ascii.ascii_of_nat 194) (String (Ascii.ascii_of_nat 160) "x y")
             +:+ String (Ascii.ascii_of_nat 227)
                   (String (Ascii.ascii_of_nat 128)
                      (String (Ascii.ascii_of_nat 128) "")))
    = "x y"
  ∧ strip "" = "" ∧ strip "  " = "".
Proof. split_and!; reflexivity. Qed.

Lemma for_each_subscript_url (l : list article) (w : world) :
  Forall (λ a, is_Some (get_url a)) l →
  for_each subscript_url l w = (Return (urls_of l), w).
Proof.
  induction 1 as [|a l [u Hu] _ IH]; [done|].
  unfold urls_of in *. cbn [for_each omap list_omap]. unfold bind at 1.
  unfold subscript_url at 1. rewrite Hu. unfold ret at 1.
  unfold bind at 1. rewrite IH. done.
Qed.

Lemma query_database_by_tags_urls (E : env) (query_tags : list string) (k : Z)
    (w w' : world) (cached : list article) :
  query_database_by_tags E query_tags k w = (Return cached, w') →
  Forall (λ a, is_Some (get_url a)) cached.
Proof.
  rewrite query_database_by_tags_run. intros H. inversion H as [[Hc Hw]]. clear H Hw Hc.
  destruct (db_session E (connections w)); [|constructor].
  destruct (adaptable_list query_tags); [|constructor].
  apply Forall_forall. intros a Ha. apply list_elem_of_In, in_map_iff in Ha.
  destruct Ha as (x & <- & _). by eexists.
Qed.

Lemma merged_set_sufficient (E : env) (query : string) (w w1 w2 : world)
    (tags : list string) (cached : list article) :
  extract_tags E query 5 w = (Return tags, w1) →
  query_database_by_tags E tags 4 w1 = (Return cached, w2) →
  MIN_ARTICLE_THRESHOLD ≤ length cached →
  merged_set E query w = (Return cached, w2).
Proof.
  intros Htags Hdb Hlen. unfold merged_set. unfold bind at 1. rewrite Htags.
  unfold bind at 1. rewrite Hdb.
  destruct (length cached <? MIN_ARTICLE_THRESHOLD) eqn:Hlt; [|done].
  apply Nat.ltb_lt in Hlt. lia.
Qed.

Lemma merged_set_supplementing (E : env) (query : string) (w w1 w2 w3 : world)
    (tags : list string) (cached fetched : list article) :
  extract_tags E query 5 w = (Return tags, w1) →
  query_database_by_tags E tags 4 w1 = (Return cached, w2) →
  length cached < MIN_ARTICLE_THRESHOLD →
  supplement_data E query 5 w2 = (Return fetched, w3) →
  merged_set E query w =
  (Return (cached ++ survivors query tags cached fetched),
   match survivors query tags cached fetched with
   | [] => w3
   | _ :: _ => (append_articles E (survivors query tags cached fetched) w3).2
   end).
Proof.
  intros Htags Hdb Hlen Hfetch. unfold merged_set. unfold bind at 1. rewrite Htags.
  unfold bind at 1. rewrite Hdb.
  apply Nat.ltb_lt in Hlen. rewrite Hlen.
  unfold bind at 1. rewrite Hfetch.
  unfold bind at 1.
  rewrite (for_each_subscript_url cached w3 (query_database_by_tags_urls _ _ _ _ _ _ Hdb)).
  fold (survivors query tags cached fetched).
  destruct (survivors query tags cached fetched) as [|a l] eqn:Hs.
  - done.
  - unfold bind, ret. rewrite append_articles_run. done.
Qed.

Lemma merged_set_raises (E : env) (query : string) (w w1 : world) (e : string) :
  extract_tags E query 5 w = (Raise e, w1) →
  merged_set E query w = (Raise e, w1).
Proof. intros Htags. unfold merged_set. unfold bind at 1. by rewrite Htags. Qed.

Lemma generate_report_for_query_run (E : env) (query extra : string) (w : world) :
  generate_report_for_query E query extra w =
  match merged_set E query w with
  | (Return [], w') => (Return "No relevant articles found to generate a report.", w')
  | (Return (a :: l), w') =>
      generate_analysis_report E (collate_article_summaries (a :: l)) query extra w'
  | (Raise e, w') => (Raise e, w')
  end.
Proof.
  unfold generate_report_for_query, bind.
  destruct (merged_set E query w) as [[[|a l]|e] w']; done.
Qed.

(** ** Collation *)

Lemma string_app_assoc (s1 s2 s3 : string) : (s1 +:+ s2) +:+ s3 = s1 +:+ (s2 +:+ s3).
Proof.
  induction s1 as [|c s1 IH]; [done|].
  change (String c ((s1 +:+ s2) +:+ s3) = String c (s1 +:+ (s2 +:+ s3))). by f_equal.
Qed.

Lemma string_app_nil_r (s : string) : s +:+ "" = s.
Proof.
  induction s as [|c s IH]; [done|]. change (String c (s +:+ "") = String c s). by f_equal.
Qed.

(** The loop of [collate_article_summaries] from any accumulator and any
    starting index. *)
Lemma collate_loop (articles : list article) (off : nat) (collated : string) :
  foldl (λ (collated : string) (ia : nat * article),
           let summary := get_summary ia.2 in
           let url := default "Unknown URL" (get_url ia.2) in
           if truthy_str summary
           then collated +:+ "Article " +:+ pretty (ia.1 + 1) +:+ " (URL: " +:+ url
                  +:+ "):" +:+ nl +:+ default "" summary +:+ nl +:+ nl
           else collated)
        collated (imap (λ i a, (off + i, a)) articles)
  = collated +:+ foldr String.append "" (imap (λ i a, emitted (off + i) a) articles).
Proof.
  revert off collated. induction articles as [|a l IH]; intros off collated.
  - cbn. by rewrite string_app_nil_r.
  - rewrite !imap_cons. cbn [foldl foldr fst snd].
    rewrite (imap_ext ((λ i a, (off + i, a)) ∘ S) (λ i a, (S off + i, a)))
      by (intros i x _; cbn; f_equal; lia).
    rewrite (imap_ext ((λ i a, emitted (off + i) a) ∘ S) (λ i a, emitted (S off + i) a))
      by (intros i x _; cbn; f_equal; lia).
    rewrite IH. unfold emitted at 2, block. rewrite Nat.add_0_r.
    destruct (truthy_str (get_summary a)).
    + by rewrite !string_app_assoc.
    + done.
Qed.

(** C7: the collated text is the concatenation, in merged-set order, of
    what each article emits: for a non-empty summary the block labelled
    with the article's 1-based position in the merged set and its URL,
    followed by the summary; nothing for an empty summary.  The position is
    the index in the whole list, so an article with an empty summary uses
    up its number. *)
Theorem collate_numbers_by_position (articles : list article) :
  collate_article_summaries articles
  = foldr String.append "" (imap emitted articles)
  ∧ ∀ a : article,
      collate_article_summaries (articles ++ [a])
      = collate_article_summaries articles
        +:+ (if truthy_str (get_summary a)
             then block (length articles + 1) a else "").
Proof.
  assert (Hall : ∀ l, collate_article_summaries l
                      = foldr String.append "" (imap emitted l)).
  { intros l. unfold collate_article_summaries, enumerate.
    rewrite (imap_ext pair (λ i a, (0 + i, a))) by done.
    rewrite collate_loop. cbn [String.append].
    by apply (f_equal (foldr String.append "")), imap_ext. }
  split; [apply Hall|]. intros a. rewrite !Hall, imap_app. cbn [imap].
  rewrite Nat.add_0_r. fold (emitted (length articles) a).
  generalize (imap emitted articles) as blocks. intros blocks.
  induction blocks as [|b blocks IH].
  - cbn. by rewrite string_app_nil_r.
  - cbn [app foldr]. by rewrite IH, string_app_assoc.
Qed.

(** The numbering of the visible blocks has a gap where a summary is
    empty. *)
Example collate_gap :
  collate_article_summaries
    [Scenario.fetched "https://a.example" "first";
     Scenario.no_summary "https://b.example";
     Scenario.fetched "https://c.example" "third"]
  = "Article 1 (URL: https://a.example):" +:+ nl +:+ "first" +:+ nl +:+ nl
    +:+ "Article 3 (URL: https://c.example):" +:+ nl +:+ "third" +:+ nl +:+ nl.
Proof. vm_compute. reflexivity. Qed.

(** ** The orchestrator's calls *)

Lemma extract_tags_world (E : env) (query : string) (n : nat) (w w1 : world)
    (o : outcome (list string)) :
  extract_tags E query n w = (o, w1) →
  w1 = World (articles_table w) (connections w) (calls w ++ [Call_extract_keywords query n]).
Proof. rewrite extract_tags_run. by intros [= _ <-]. Qed.

Lemma query_database_by_tags_world (E : env) (tags : list string) (k : Z) (w w2 : world)
    (o : outcome (list article)) :
  query_database_by_tags E tags k w = (o, w2) →
  w2 = World (articles_table w) (S (connections w))
             (calls w ++ [Call_query_database_by_tags tags k]).
Proof. rewrite query_database_by_tags_run. by intros [= _ <-]. Qed.

Lemma query_database_by_tags_returns (E : env) (tags : list string) (k : Z) (w : world) :
  ∃ cached w2, query_database_by_tags E tags k w = (Return cached, w2).
Proof. rewrite query_database_by_tags_run. by eexists _, _. Qed.

Lemma supplement_data_world (E : env) (query : string) (n : nat) (w w3 : world)
    (o : outcome (list article)) :
  supplement_data E query n w = (o, w3) →
  w3 = World (articles_table w) (connections w)
             (calls w ++ [Call_get_data_and_summarize query n]).
Proof. rewrite supplement_data_run. by intros [= _ <-]. Qed.

Lemma supplement_data_returns (E : env) (query : string) (n : nat) (w : world) :
  ∃ fetched w3, supplement_data E query n w = (Return fetched, w3).
Proof. rewrite supplement_data_run. by eexists _, _. Qed.

(** When the tags are extracted, lines 92-126 run to the end; the last call
    they make is not to the chat model, and they make none to it. *)
Lemma merged_set_returns (E : env) (query : string) (w w1 : world) (tags : list string) :
  extract_tags E query 5 w = (Return tags, w1) →
  ∃ merged w' evs ev,
    merged_set E query w = (Return merged, w')
    ∧ calls w' = evs ++ [ev] ∧ is_narration_call ev = false
    ∧ count_calls is_narration_call (calls w') = count_calls is_narration_call (calls w).
Proof.
  intros Htags. pose proof (extract_tags_world _ _ _ _ _ _ Htags) as Hw1.
  destruct (query_database_by_tags_returns E tags 4 w1) as (cached & w2 & Hdb).
  pose proof (query_database_by_tags_world _ _ _ _ _ _ Hdb) as Hw2.
  destruct (decide (MIN_ARTICLE_THRESHOLD ≤ length cached)) as [Hlen|Hlen].
  - exists cached, w2, (calls w1), (Call_query_database_by_tags tags 4).
    split; [by eapply merged_set_sufficient|]. subst w2 w1. cbn [calls].
    split_and!; [done|done|]. rewrite !count_calls_app. unfold count_calls. cbn. lia.
  - destruct (supplement_data_returns E query 5 w2) as (fetched & w3 & Hs).
    pose proof (supplement_data_world _ _ _ _ _ _ Hs) as Hw3.
    assert (Hlt : length cached < MIN_ARTICLE_THRESHOLD) by lia.
    pose proof (merged_set_supplementing _ _ _ _ _ _ _ _ _ Htags Hdb Hlt Hs) as Hm.
    destruct (survivors query tags cached fetched) as [|a l].
    + exists (cached ++ []), w3, (calls w2), (Call_get_data_and_summarize query 5).
      split; [done|]. subst w3 w2 w1. cbn [calls].
      split_and!; [done|done|]. rewrite !count_calls_app. unfold count_calls. cbn. lia.
    + rewrite append_articles_run in Hm. cbn [snd] in Hm.
      eexists _, _, (calls w3), (Call_append_articles (a :: l)).
      split; [exact Hm|]. subst w3 w2 w1. cbn [calls].
      split_and!; [done|done|]. rewrite !count_calls_app. unfold count_calls. cbn. lia.
Qed.

(** C1: when the lookup returns at least [MIN_ARTICLE_THRESHOLD] cached
    articles, the merged set is the cached list itself and the run of the
    orchestrator makes no call to the fetcher; when it returns fewer, the
    run makes exactly one. *)
Theorem threshold_gates_fetcher (E : env) (query extra : string) (w w1 w2 : world)
    (tags : list string) (cached : list article) :
  extract_tags E query 5 w = (Return tags, w1) →
  query_database_by_tags E tags 4 w1 = (Return cached, w2) →
  (MIN_ARTICLE_THRESHOLD ≤ length cached →
     merged_set E query w = (Return cached, w2)
     ∧ count_calls is_fetcher_call (calls (generate_report_for_query E query extra w).2)
       = count_calls is_fetcher_call (calls w))
  ∧ (length cached < MIN_ARTICLE_THRESHOLD →
     count_calls is_fetcher_call (calls (generate_report_for_query E query extra w).2)
     = S (count_calls is_fetcher_call (calls w))).
Proof.
  intros Htags Hdb.
  pose proof (extract_tags_world _ _ _ _ _ _ Htags) as Hw1.
  pose proof (query_database_by_tags_world _ _ _ _ _ _ Hdb) as Hw2.
  split; intros Hlen.
  - pose proof (merged_set_sufficient _ _ _ _ _ _ _ Htags Hdb Hlen) as Hm.
    split; [done|]. rewrite generate_report_for_query_run, Hm.
    destruct cached as [|a l]; [unfold MIN_ARTICLE_THRESHOLD in Hlen; simpl in Hlen; lia|].
    rewrite generate_analysis_report_run. subst w2 w1. cbn [snd calls].
    rewrite !count_calls_app. unfold count_calls. cbn [List.filter is_fetcher_call length].
    lia.
  - destruct (supplement_data_returns E query 5 w2) as (fetched & w3 & Hs).
    pose proof (supplement_data_world _ _ _ _ _ _ Hs) as Hw3.
    rewrite generate_report_for_query_run,
      (merged_set_supplementing _ _ _ _ _ _ _ _ _ Htags Hdb Hlen Hs).
    assert (Hcount : count_calls is_fetcher_call (calls w3)
                     = S (count_calls is_fetcher_call (calls w))).
    { subst w3 w2 w1. cbn [calls]. rewrite !count_calls_app. unfold count_calls.
      cbn [List.filter is_fetcher_call length]. lia. }
    destruct (survivors query tags cached fetched) as [|s l].
    + rewrite app_nil_r. destruct cached as [|a l']; [done|].
      rewrite generate_analysis_report_run. cbn [snd calls].
      rewrite count_calls_app, Hcount. unfold count_calls.
      cbn [List.filter is_fetcher_call length]. lia.
    + rewrite append_articles_run. cbn [snd].
      destruct (cached ++ s :: l) as [|a l'] eqn:Hmerged;
        [by destruct cached|].
      rewrite generate_analysis_report_run. cbn [snd calls].
      rewrite !count_calls_app, Hcount. unfold count_calls.
      cbn [List.filter is_fetcher_call length]. lia.
Qed.

Lemma threshold_gates_fetcher_witness :
  let cached :=
    [dict_of_row "https://example.com/b"
       (Row (Some "Rules for China") (Some "china rules")
            (Some ["rules"; "china"; "tariff"; "trump"]) 20)] in
  let w := Scenario.archive in
  let w2 :=
    World (articles_table w) 1
      [Call_extract_keywords "new tariff rules" 5;
       Call_query_database_by_tags ["tariff"; "trump"; "china"; "rules"] 4] in
  (MIN_ARTICLE_THRESHOLD ≤ length cached →
     merged_set Scenario.newsroom "new tariff rules" w = (Return cached, w2)
     ∧ count_calls is_fetcher_call
         (calls (generate_report_for_query Scenario.newsroom "new tariff rules" "" w).2)
       = count_calls is_fetcher_call (calls w))
  ∧ (length cached < MIN_ARTICLE_THRESHOLD →
     count_calls is_fetcher_call
       (calls (generate_report_for_query Scenario.newsroom "new tariff rules" "" w).2)
     = S (count_calls is_fetcher_call (calls w))).
Proof.
  eapply (threshold_gates_fetcher Scenario.newsroom "new tariff rules" ""
            Scenario.archive).
  - vm_compute. reflexivity.
  - vm_compute. reflexivity.
Defined.

(** With seven cached articles the run makes no call to the fetcher and
    none to [append_articles]. *)
Example sufficient_cache_run :
  calls (generate_report_for_query Scenario.newsroom "new tariff rules" ""
           Scenario.full_archive).2
  = [Call_extract_keywords "new tariff rules" 5;
     Call_query_database_by_tags ["tariff"; "trump"; "china"; "rules"] 4;
     Call_chat_completions
       (build_prompt
          (collate_article_summaries
             (match (merged_set Scenario.newsroom "new tariff rules"
                       Scenario.full_archive).1 with
              | Return l => l
              | Raise _ => []
              end))
          "new tariff rules" "")]
  ∧ length (match (merged_set Scenario.newsroom "new tariff rules"
                     Scenario.full_archive).1 with
            | Return l => l
            | Raise _ => []
            end) = 7.
Proof. split; vm_compute; reflexivity. Qed.

(** C8: when the merged set is empty the orchestrator returns the fixed
    sentence and the run has made no call to the chat model. *)
Theorem empty_merged_set_skips_narration (E : env) (query extra : string)
    (w w' : world) :
  merged_set E query w = (Return [], w') →
  generate_report_for_query E query extra w
    = (Return "No relevant articles found to generate a report.", w')
  ∧ count_calls is_narration_call (calls w') = count_calls is_narration_call (calls w).
Proof.
  intros Hm. split.
  - by rewrite generate_report_for_query_run, Hm.
  - destruct (extract_tags E query 5 w) as [[tags|e] w1] eqn:Htags.
    + destruct (merged_set_returns _ _ _ _ _ Htags) as (m & w'' & evs & ev & Hm' & _ & _ & Hc).
      rewrite Hm in Hm'. by inversion Hm'; subst.
    + rewrite (merged_set_raises _ _ _ _ _ Htags) in Hm. done.
Qed.

Lemma empty_merged_set_skips_narration_witness :
  let w' :=
    World ∅ 1
      [Call_extract_keywords "anything" 5; Call_query_database_by_tags [] 4;
       Call_get_data_and_summarize "anything" 5] in
  generate_report_for_query Scenario.quiet "anything" "" Scenario.empty_store
    = (Return "No relevant articles found to generate a report.", w')
  ∧ count_calls is_narration_call (calls w')
    = count_calls is_narration_call (calls Scenario.empty_store).
Proof.
  apply (empty_merged_set_skips_narration Scenario.quiet "anything" ""
           Scenario.empty_store).
  vm_compute. reflexivity.
Defined.

(** What does hold: when the tags are extracted, the orchestrator returns
    a string whatever the connections to the store, the fetcher and the
    chat model do; and if its last call was to the chat model and that call
    failed, the string is the fixed error sentence. *)
Theorem orchestrator_returns_a_string (E : env) (query extra : string) (w w1 : world)
    (tags : list string) :
  extract_tags E query 5 w = (Return tags, w1) →
  ∃ (report : string) (w' : world),
    generate_report_for_query E query extra w = (Return report, w')
    ∧ ∀ evs prompt e,
        calls w' = evs ++ [Call_chat_completions prompt] →
        chat_completions E prompt = Raise e →
        report = "Error generating report.".
Proof.
  intros Htags.
  destruct (merged_set_returns _ _ _ _ _ Htags) as (m & wm & evs0 & ev0 & Hm & Hcalls & Hev & _).
  rewrite generate_report_for_query_run, Hm. destruct m as [|a l].
  - eexists _, _. split; [reflexivity|]. intros evs prompt e Hlast _.
    rewrite Hcalls in Hlast. apply app_inj_tail in Hlast as [_ ->]. done.
  - rewrite generate_analysis_report_run. eexists _, _. split; [reflexivity|].
    intros evs prompt e Hlast Hfail. cbn [calls] in Hlast.
    apply app_inj_tail in Hlast as [_ [= Hp]]. rewrite Hp, Hfail. done.
Qed.

Lemma orchestrator_returns_a_string_witness :
  ∃ (report : string) (w' : world),
    generate_report_for_query Scenario.newsroom "new tariff rules" "Be brief."
      Scenario.archive = (Return report, w')
    ∧ ∀ evs prompt e,
        calls w' = evs ++ [Call_chat_completions prompt] →
        chat_completions Scenario.newsroom prompt = Raise e →
        report = "Error generating report.".
Proof.
  eapply (orchestrator_returns_a_string Scenario.newsroom "new tariff rules" "Be brief."
            Scenario.archive).
  vm_compute. reflexivity.
Defined.

(** In that run the chat model fails and the report is the error
    sentence. *)
Example narration_failure_run :
  (generate_report_for_query Scenario.newsroom "new tariff rules" "Be brief."
     Scenario.archive).1 = Return "Error generating report.".
Proof. vm_compute. reflexivity. Qed.

(** C4: the orchestrator does raise to its caller.  [extract_tags] is
    called at line 93, outside every [try], and has none of its own: an
    exception of the keyword model leaves [generate_report_for_query] as
    it is, for every query and whatever the store, the fetcher and the chat
    model would have done.  The other stages catch theirs. *)
Theorem tag_extraction_failure_escapes (E : env) (query extra e : string) (w : world) :
  kw_extract_keywords E query 5 = Raise e →
  (generate_report_for_query E query extra w).1 = Raise e.
Proof.
  intros Hkw. rewrite generate_report_for_query_run.
  rewrite (merged_set_raises E query w
             (World (articles_table w) (connections w)
                    (calls w ++ [Call_extract_keywords query 5])) e); [done|].
  by rewrite extract_tags_run, Hkw.
Qed.

Lemma tag_extraction_failure_escapes_witness :
  (generate_report_for_query Scenario.untagged "new tariff rules" "" Scenario.archive).1
  = Raise "OSError".
Proof.
  apply (tag_extraction_failure_escapes Scenario.untagged "new tariff rules" "" "OSError"
           Scenario.archive).
  reflexivity.
Defined.

(** ** The supplementing branch *)

Lemma url_cached_iff (cached : list article) (u : string) :
  u ∈ (list_to_set (urls_of cached) : gset string) ↔
  ∃ c, c ∈ cached ∧ get_url c = Some u.
Proof. unfold urls_of. rewrite elem_of_list_to_set, list_elem_of_omap. done. Qed.

Lemma keep_supplementary_spec (cached : list article) (c : article) :
  keep_supplementary (list_to_set (urls_of cached)) c = true ↔ ¬ discarded cached c.
Proof.
  unfold keep_supplementary, discarded, begins_with_scheme, url_is_cached. split.
  - destruct (get_url c) as [u|] eqn:Hu; [|done].
    intros [Hpre Hnew]%andb_true_iff. apply bool_decide_eq_true in Hnew.
    intros [Hno|(a & u' & Ha & Hau & [= <-])].
    + apply Hno. by exists u.
    + apply Hnew, url_cached_iff. by exists a.
  - intros Hkeep. destruct (get_url c) as [u|] eqn:Hu.
    + apply andb_true_iff. split.
      * destruct (String.prefix "http" u) eqn:Hpre; [done|].
        exfalso. apply Hkeep. left. intros (u' & [= <-] & Hp). congruence.
      * apply bool_decide_eq_true. intros (a & Ha & Hau)%url_cached_iff.
        apply Hkeep. right. by exists a, u.
    + exfalso. apply Hkeep. left. by intros (u & ? & _).
Qed.

Lemma truthy_str_false (v : option string) :
  truthy_str v = false ↔ v = None ∨ v = Some "".
Proof.
  destruct v as [[|c s]|]; cbn; split; intros H; try done; try (by right); try (by left).
  by destruct H.
Qed.

Lemma truthy_list_false {A} (v : option (list A)) :
  truthy_list v = false ↔ v = None ∨ v = Some [].
Proof.
  destruct v as [[|x l]|]; cbn; split; intros H; try done; try (by right); try (by left).
  by destruct H.
Qed.

Lemma set_query_and_tags_defaulted (query : string) (tags : list string) (c : article) :
  defaulted query tags c (set_query_and_tags query tags c).
Proof.
  unfold defaulted, set_query_and_tags. cbn [get_url get_raw_content get_summary
    get_query get_tags get_retrieval_timestamp].
  split_and!; try done.
  - intros H%truthy_str_false. by rewrite H.
  - intros H. destruct (truthy_str (get_query c)) eqn:Ht; [done|].
    by apply truthy_str_false in Ht.
  - intros H%truthy_list_false. by rewrite H.
  - intros H. destruct (truthy_list (get_tags c)) eqn:Ht; [done|].
    by apply truthy_list_false in Ht.
Qed.

Lemma survivors_supplemented (query : string) (tags : list string)
    (cached fetched : list article) :
  supplemented query tags cached fetched (survivors query tags cached fetched).
Proof.
  unfold survivors. induction fetched as [|c fetched IH]; [constructor|].
  cbn [List.filter].
  destruct (keep_supplementary _ c) eqn:Hkeep.
  - cbn [map]. apply supplemented_keep; [|apply set_query_and_tags_defaulted|exact IH].
    by apply keep_supplementary_spec.
  - apply supplemented_discard; [|exact IH].
    unfold keep_supplementary in Hkeep. unfold discarded.
    destruct (get_url c) as [u|] eqn:Hu.
    + apply andb_false_iff in Hkeep as [Hp|Hin].
      * left. intros (u' & Hu' & Hp'). congruence.
      * right. apply bool_decide_eq_false in Hin. apply dec_stable in Hin.
        apply url_cached_iff in Hin as (a & Ha & Hau). by exists a, u.
    + left. intros (u' & Hu' & _). congruence.
Qed.

(** C3: in the supplementing branch the merged set is the cached articles
    followed by the kept candidates, where the kept candidates are the
    fetched ones, in their order, without those whose URL does not begin
    with the scheme marker or is the URL of a cached article, each with
    [query] and [tags] defaulted where it had no value. *)
Theorem supplementing_merged_set (E : env) (query : string) (w w1 w2 w3 : world)
    (tags : list string) (cached fetched : list article) :
  extract_tags E query 5 w = (Return tags, w1) →
  query_database_by_tags E tags 4 w1 = (Return cached, w2) →
  length cached < MIN_ARTICLE_THRESHOLD →
  supplement_data E query 5 w2 = (Return fetched, w3) →
  ∃ (kept : list article) (w4 : world),
    merged_set E query w = (Return (cached ++ kept), w4)
    ∧ supplemented query tags cached fetched kept.
Proof.
  intros Htags Hdb Hlen Hs.
  eexists _, _. split.
  - by apply (merged_set_supplementing _ _ _ _ _ _ _ _ _ Htags Hdb Hlen Hs).
  - apply survivors_supplemented.
Qed.

Lemma supplementing_merged_set_witness :
  ∃ (kept : list article) (w4 : world),
    merged_set Scenario.newsroom "new tariff rules" Scenario.archive
      = (Return ([dict_of_row "https://example.com/b"
                    (Row (Some "Rules for China") (Some "china rules")
                         (Some ["rules"; "china"; "tariff"; "trump"]) 20)] ++ kept), w4)
    ∧ supplemented "new tariff rules" ["tariff"; "trump"; "china"; "rules"]
        [dict_of_row "https://example.com/b"
           (Row (Some "Rules for China") (Some "china rules")
                (Some ["rules"; "china"; "tariff"; "trump"]) 20)]
        [Scenario.fetched "https://news.example/x" "X";
         Scenario.fetched "ftp://files.example/y" "Y";
         Scenario.fetched "https://news.example/x" "X again";
         Scenario.fetched "https://example.com/b" "B"]
        kept.
Proof.
  eapply (supplementing_merged_set Scenario.newsroom "new tariff rules" Scenario.archive).
  - vm_compute. reflexivity.
  - vm_compute. reflexivity.
  - vm_compute. lia.
  - vm_compute. reflexivity.
Defined.

Lemma survivors_app (query : string) (tags : list string) (cached l1 l2 : list article) :
  survivors query tags cached (l1 ++ l2)
  = survivors query tags cached l1 ++ survivors query tags cached l2.
Proof. unfold survivors. by rewrite List.filter_app, map_app. Qed.

Lemma survivors_cons_kept (query : string) (tags : list string)
    (cached l : list article) (c : article) (u : string) :
  get_url c = Some u → String.prefix "http" u = true →
  (∀ a, a ∈ cached → get_url a ≠ Some u) →
  survivors query tags cached (c :: l)
  = set_query_and_tags query tags c :: survivors query tags cached l.
Proof.
  intros Hu Hp Hnew. unfold survivors. cbn [List.filter].
  unfold keep_supplementary at 1. rewrite Hu, Hp. cbn [andb].
  rewrite bool_decide_eq_true_2; [done|].
  intros (a & Ha & Hau)%url_cached_iff. by apply (Hnew a).
Qed.

(** C10: two fetched entries with the same URL, well-formed and not among
    the cached URLs, are both kept: both are in the batch handed to
    [append_articles] and both are in the merged set that is collated. *)
Theorem duplicates_within_fetched_batch_survive (E : env) (query extra : string)
    (w w1 w2 w3 : world) (tags : list string)
    (cached pre mid post : list article) (c1 c2 : article) (u : string) :
  extract_tags E query 5 w = (Return tags, w1) →
  query_database_by_tags E tags 4 w1 = (Return cached, w2) →
  length cached < MIN_ARTICLE_THRESHOLD →
  supplement_data E query 5 w2 = (Return (pre ++ c1 :: mid ++ c2 :: post), w3) →
  get_url c1 = Some u → get_url c2 = Some u →
  String.prefix "http" u = true →
  (∀ a, a ∈ cached → get_url a ≠ Some u) →
  ∃ (kept1 kept2 kept3 : list article) (w4 : world),
    let batch := kept1 ++ set_query_and_tags query tags c1
                   :: kept2 ++ set_query_and_tags query tags c2 :: kept3 in
    merged_set E query w = (Return (cached ++ batch), w4)
    ∧ calls w4 = calls w3 ++ [Call_append_articles batch]
    ∧ generate_report_for_query E query extra w
      = generate_analysis_report E (collate_article_summaries (cached ++ batch))
          query extra w4.
Proof.
  intros Htags Hdb Hlen Hs Hu1 Hu2 Hp Hnew.
  pose proof (merged_set_supplementing _ _ _ _ _ _ _ _ _ Htags Hdb Hlen Hs) as Hm.
  rewrite survivors_app, (survivors_cons_kept _ _ _ _ _ _ Hu1 Hp Hnew), survivors_app,
    (survivors_cons_kept _ _ _ _ _ _ Hu2 Hp Hnew) in Hm.
  exists (survivors query tags cached pre), (survivors query tags cached mid),
    (survivors query tags cached post).
  set (batch := survivors query tags cached pre ++ _ :: _ ++ _ :: _) in *.
  assert (Hne : ∃ b l, batch = b :: l).
  { subst batch. destruct (survivors query tags cached pre); by eexists _, _. }
  destruct Hne as (b & l & Hb).
  exists (append_articles E batch w3).2. cbn zeta. split_and!.
  - rewrite Hm. by rewrite Hb.
  - by rewrite append_articles_run.
  - rewrite generate_report_for_query_run, Hm. rewrite Hb.
    destruct (cached ++ b :: l) as [|a l'] eqn:Hmerged; [by destruct cached|done].
Qed.

Lemma duplicates_within_fetched_batch_survive_witness :
  ∃ (kept1 kept2 kept3 : list article) (w4 : world),
    let batch :=
      kept1 ++ set_query_and_tags "new tariff rules" ["tariff"; "trump"; "china"; "rules"]
                 (Scenario.fetched "https://news.example/x" "X")
        :: kept2 ++ set_query_and_tags "new tariff rules"
                      ["tariff"; "trump"; "china"; "rules"]
                      (Scenario.fetched "https://news.example/x" "X again") :: kept3 in
    let cached :=
      [dict_of_row "https://example.com/b"
         (Row (Some "Rules for China") (Some "china rules")
              (Some ["rules"; "china"; "tariff"; "trump"]) 20)] in
    merged_set Scenario.newsroom "new tariff rules" Scenario.archive
      = (Return (cached ++ batch), w4)
    ∧ calls w4
      = [Call_extract_keywords "new tariff rules" 5;
         Call_query_database_by_tags ["tariff"; "trump"; "china"; "rules"] 4;
         Call_get_data_and_summarize "new tariff rules" 5]
        ++ [Call_append_articles batch]
    ∧ generate_report_for_query Scenario.newsroom "new tariff rules" "" Scenario.archive
      = generate_analysis_report Scenario.newsroom
          (collate_article_summaries (cached ++ batch)) "new tariff rules" "" w4.
Proof.
  eapply (duplicates_within_fetched_batch_survive Scenario.newsroom "new tariff rules" ""
            Scenario.archive _ _
            (World (articles_table Scenario.archive) 1
               [Call_extract_keywords "new tariff rules" 5;
                Call_query_database_by_tags ["tariff"; "trump"; "china"; "rules"] 4;
                Call_get_data_and_summarize "new tariff rules" 5])
            _ _ [] [Scenario.fetched "ftp://files.example/y" "Y"]
            [Scenario.fetched "https://example.com/b" "B"]
            _ _ "https://news.example/x").
  - vm_compute. reflexivity.
  - vm_compute. reflexivity.
  - vm_compute. lia.
  - vm_compute. reflexivity.
  - reflexivity.
  - reflexivity.
  - reflexivity.
  - intros a Ha. apply list_elem_of_singleton in Ha as ->. done.
Defined.

(** ** Rows that enter the store through supplementation *)

(** A row that [append_articles] adds is the row of an article of the
    batch. *)
Lemma append_articles_new_row (E : env) (articles : list article) (w : world)
    (u : string) (r : row) :
  articles_table w !! u = None →
  articles_table (append_articles E articles w).2 !! u = Some r →
  ∃ a t, a ∈ articles ∧ get_url a = Some u
         ∧ r = inserted_row t (get_summary a) (get_query a) (get_tags a).
Proof.
  intros Hno. rewrite append_articles_run. cbn [snd articles_table].
  destruct (db_session E (connections w)) as [t|]; [|congruence].
  destruct (execute_values _ _ _) as [tbl'|] eqn:Hrun; [|cbn; congruence].
  cbn [default]. revert r.
  refine (execute_values_invariant _
            (λ tb, ∀ r, tb !! u = Some r →
                        ∃ a t, a ∈ articles ∧ get_url a = Some u
                               ∧ r = inserted_row t (get_summary a) (get_query a)
                                       (get_tags a))
            _ _ _ _ Hrun _).
  - intros page tb tb' Hpage Hst HP r Hr.
    destruct (tb !! u) as [r0|] eqn:Hlk.
    + pose proof (insert_do_nothing_keeps _ _ _ _ _ _ _ Hst Hlk) as Hkeep.
      apply HP. congruence.
    + destruct (insert_do_nothing_new _ _ _ _ _ _ _ Hst Hlk Hr) as (s & q & tg & Hin & ->).
      pose proof (paginate_elem 99 _ _ _ Hpage Hin) as Hin'.
      apply list_elem_of_In, in_map_iff in Hin' as (a & Ha & Hain).
      unfold data_tuple in Ha. inversion Ha; subst.
      exists a, t. split_and!; [by apply list_elem_of_In|done|done].
  - intros r Hr. congruence.
Qed.

Lemma generate_report_for_query_table (E : env) (query extra : string) (w : world) :
  articles_table (generate_report_for_query E query extra w).2
  = articles_table (merged_set E query w).2.
Proof.
  rewrite generate_report_for_query_run.
  destruct (merged_set E query w) as [[[|a l]|e] w']; [done| |done].
  by rewrite generate_analysis_report_run.
Qed.

Lemma survivors_tags (query : string) (tags : list string)
    (cached fetched : list article) (a : article) :
  a ∈ survivors query tags cached fetched →
  ∃ tg, get_tags a = Some tg ∧ (tg ≠ [] ∨ tg = tags).
Proof.
  unfold survivors. intros Ha. apply list_elem_of_In, in_map_iff in Ha as (c & <- & _).
  unfold set_query_and_tags. cbn [get_tags].
  destruct (get_tags c) as [[|x l]|]; cbn [truthy_list]; eauto.
Qed.

(** A row that [append_articles] adds is the row of the first article of
    the batch with its URL. *)
Lemma append_articles_new_row_first (E : env) (articles : list article) (w : world)
    (u : string) (r : row) :
  articles_table w !! u = None →
  articles_table (append_articles E articles w).2 !! u = Some r →
  ∃ pre a post t,
    articles = pre ++ a :: post
    ∧ get_url a = Some u
    ∧ (∀ b, b ∈ pre → get_url b ≠ Some u)
    ∧ r = inserted_row t (get_summary a) (get_query a) (get_tags a).
Proof.
  intros Hno. rewrite append_articles_run. cbn [snd articles_table].
  destruct (db_session E (connections w)) as [t|]; [|congruence].
  rewrite execute_values_insert_do_nothing.
  destruct (insert_do_nothing _ _ _ _) as [tbl'|] eqn:Hrun; [|cbn; congruence].
  cbn [default]. intros Hr.
  destruct (insert_do_nothing_new_first _ _ _ _ _ _ _ Hrun Hno Hr)
    as (pre & s & q & tg & post & Heq & Hpre & ->).
  apply map_eq_app in Heq as (apre & rest & -> & Hpre_eq & Hrest).
  apply map_eq_cons in Hrest as (a & apost & -> & Ha & _).
  unfold data_tuple in Ha. injection Ha as Hu Hs Hq Htg. subst.
  exists apre, a, apost, t. split_and!; [done|done| |done].
  intros b Hb Hbu. apply (Hpre (data_tuple b)); [|done].
  apply list_elem_of_In, in_map. by apply list_elem_of_In.
Qed.

Lemma keep_supplementary_url (existing_urls : gset string) (a b : article) :
  get_url a = get_url b →
  keep_supplementary existing_urls a = keep_supplementary existing_urls b.
Proof. unfold keep_supplementary. by intros ->. Qed.

(** The first survivor with a URL is the first fetched candidate with
    that URL. *)
Lemma survivors_first (query : string) (tags : list string)
    (cached fetched kept_pre kept_post : list article) (a : article) (u : string) :
  survivors query tags cached fetched = kept_pre ++ a :: kept_post →
  get_url a = Some u →
  (∀ b, b ∈ kept_pre → get_url b ≠ Some u) →
  ∃ pre c post,
    fetched = pre ++ c :: post
    ∧ a = set_query_and_tags query tags c
    ∧ get_url c = Some u
    ∧ (∀ b, b ∈ pre → get_url b ≠ Some u)
    ∧ keep_supplementary (list_to_set (urls_of cached)) c = true.
Proof.
  unfold survivors. revert kept_pre.
  induction fetched as [|x rest IH]; intros kept_pre Heq Hu Hpre.
  - cbn in Heq. by destruct kept_pre.
  - cbn [List.filter] in Heq.
    destruct (keep_supplementary (list_to_set (urls_of cached)) x) eqn:Hx.
    + cbn [map] in Heq. destruct kept_pre as [|b kp].
      * cbn [app] in Heq. injection Heq as <- _.
        exists [], x, rest. split_and!; [done|done|done| |done].
        intros b Hb. by apply not_elem_of_nil in Hb.
      * cbn [app] in Heq. injection Heq as <- Heq.
        destruct (IH kp Heq Hu) as (pre & c & post & -> & -> & Hc & Hpre' & Hkeep).
        { intros b Hb. apply Hpre. by right. }
        exists (x :: pre), c, post. split_and!; [done|done|done| |done].
        intros b' [->|Hb]%elem_of_cons; [|by apply Hpre'].
        apply (Hpre (set_query_and_tags query tags x)). by left.
    + destruct (IH kept_pre Heq Hu Hpre) as (pre & c & post & -> & -> & Hc & Hpre' & Hkeep).
      exists (x :: pre), c, post. split_and!; [done|done|done| |done].
      intros b' [->|Hb]%elem_of_cons; [|by apply Hpre'].
      intros Hbu.
      rewrite (keep_supplementary_url _ x c) in Hx by congruence. congruence.
Qed.

(** C9, as stated, fails: when no keyword of the query scores above the
    threshold the tag set is empty, and a fetched article is stored with
    that empty tag set. *)
Lemma supplemented_row_with_empty_tags :
  ¬ (∀ (E : env) (query extra : string) (w : world) (u : string) (r : row),
        articles_table w !! u = None →
        articles_table (generate_report_for_query E query extra w).2 !! u = Some r →
        ∃ t ts, col_tags r = Some (t :: ts)).
Proof.
  intros H.
  destruct (H Scenario.vague "latest things" "" Scenario.empty_store
              "https://news.example/x"
              (Row (Some "X") (Some "latest things") (Some []) 1001))
    as (t & ts & Ht).
  - reflexivity.
  - vm_compute. reflexivity.
  - discriminate Ht.
Qed.

(** C9 (amended): a row that a run of the orchestrator adds to the store
    is the row of a fetched candidate, the first one the fetcher returned
    with that URL, and it has a tags value: the tags the fetch stage gave
    that candidate when it gave a non-empty list, and otherwise the tag set
    of the query.  It is non-empty whenever the tag set of the query is. *)
Theorem supplemented_rows_take_query_tags (E : env) (query extra : string)
    (w w1 : world) (tags : list string) (u : string) (r : row) :
  extract_tags E query 5 w = (Return tags, w1) →
  articles_table w !! u = None →
  articles_table (generate_report_for_query E query extra w).2 !! u = Some r →
  ∃ (fetched pre : list article) (c : article) (post : list article),
    search_and_summarize E query 5 = Return fetched
    ∧ fetched = pre ++ c :: post
    ∧ get_url c = Some u
    ∧ (∀ b, b ∈ pre → get_url b ≠ Some u)
    ∧ col_tags r = Some (match get_tags c with
                         | Some (t :: ts) => t :: ts
                         | _ => tags
                         end)
    ∧ (tags ≠ [] → ∃ t ts, col_tags r = Some (t :: ts)).
Proof.
  intros Htags Hno. rewrite generate_report_for_query_table.
  pose proof (extract_tags_world _ _ _ _ _ _ Htags) as Hw1.
  destruct (query_database_by_tags_returns E tags 4 w1) as (cached & w2 & Hdb).
  pose proof (query_database_by_tags_world _ _ _ _ _ _ Hdb) as Hw2.
  destruct (decide (MIN_ARTICLE_THRESHOLD ≤ length cached)) as [Hlen|Hlen].
  - rewrite (merged_set_sufficient _ _ _ _ _ _ _ Htags Hdb Hlen). subst w2 w1.
    cbn [snd articles_table]. congruence.
  - destruct (supplement_data_returns E query 5 w2) as (fetched & w3 & Hs).
    pose proof (supplement_data_world _ _ _ _ _ _ Hs) as Hw3.
    assert (Hlt : length cached < MIN_ARTICLE_THRESHOLD) by lia.
    rewrite (merged_set_supplementing _ _ _ _ _ _ _ _ _ Htags Hdb Hlt Hs).
    assert (Hno3 : articles_table w3 !! u = None) by (subst w3 w2 w1; exact Hno).
    destruct (survivors query tags cached fetched) as [|s l] eqn:Hsurv.
    + cbn [snd]. congruence.
    + cbn [snd]. intros Hr.
      destruct (append_articles_new_row_first _ _ _ _ _ Hno3 Hr)
        as (kept_pre & a & kept_post & t & Heq & Hau & Hkept & ->).
      rewrite <- Hsurv in Heq.
      destruct (survivors_first _ _ _ _ _ _ _ _ Heq Hau Hkept)
        as (pre & c & post & -> & -> & Hcu & Hpre & _).
      exists (pre ++ c :: post), pre, c, post.
      cbn [inserted_row col_tags set_query_and_tags get_tags].
      split_and!; [|done|done|done| |].
      * rewrite supplement_data_run in Hs. injection Hs as Hf _.
        case_bool_decide; [by destruct pre|].
        destruct (search_and_summarize E query 5) as [results|e]; [by subst|].
        by destruct pre.
      * by destruct (get_tags c) as [[|x l']|].
      * intros Hne. destruct (get_tags c) as [[|x l']|]; cbn [truthy_list];
          destruct tags; eauto; done.
Qed.

Lemma supplemented_rows_take_query_tags_witness :
  ∃ (fetched pre : list article) (c : article) (post : list article),
    search_and_summarize Scenario.newsroom "new tariff rules" 5 = Return fetched
    ∧ fetched = pre ++ c :: post
    ∧ get_url c = Some "https://news.example/x"
    ∧ (∀ b, b ∈ pre → get_url b ≠ Some "https://news.example/x")
    ∧ col_tags (Row (Some "X") (Some "new tariff rules")
                    (Some ["tariff"; "trump"; "china"; "rules"]) 1001)
      = Some (match get_tags c with
              | Some (t :: ts) => t :: ts
              | _ => ["tariff"; "trump"; "china"; "rules"]
              end)
    ∧ (["tariff"; "trump"; "china"; "rules"] ≠ [] →
       ∃ t ts, col_tags (Row (Some "X") (Some "new tariff rules")
                             (Some ["tariff"; "trump"; "china"; "rules"]) 1001)
               = Some (t :: ts)).
Proof.
  eapply (supplemented_rows_take_query_tags Scenario.newsroom "new tariff rules" ""
            Scenario.archive _ _ "https://news.example/x").
  - vm_compute. reflexivity.
  - vm_compute. reflexivity.
  - vm_compute. reflexivity.
Defined.

(** * Further properties of the store *)

(** ** Statements and pages *)

Lemma run_pages_app (statement : list tuple → table → option table)
    (pages1 pages2 : list (list tuple)) (acc : option table) :
  run_pages statement (pages1 ++ pages2) acc
  = run_pages statement pages2 (run_pages statement pages1 acc).
Proof. unfold run_pages. apply foldl_app. Qed.

(** A page that fails on every table makes the whole run fail. *)
Lemma run_pages_failing_page (statement : list tuple → table → option table)
    (pages : list (list tuple)) (page : list tuple) (acc : option table) :
  page ∈ pages → (∀ tb, statement page tb = None) →
  run_pages statement pages acc = None.
Proof.
  intros Hin Hfail. apply list_elem_of_split in Hin as (pages1 & pages2 & ->).
  rewrite run_pages_app.
  destruct (run_pages statement pages1 acc) as [tb|].
  - rewrite run_pages_cons, Hfail. apply run_pages_failed.
  - apply run_pages_failed.
Qed.

Lemma paginate_covers {A} (n : nat) (seq : list A) (x : A) :
  x ∈ seq → ∃ page, page ∈ paginate (S n) seq ∧ x ∈ page.
Proof.
  intros Hx. rewrite <- (paginate_concat n seq) in Hx.
  apply list_elem_of_In, in_concat in Hx as (page & Hpage & Hx).
  exists page. by rewrite !list_elem_of_In.
Qed.

Lemma paginate_single {A} (n : nat) (seq : list A) :
  seq ≠ [] → length seq ≤ n → paginate n seq = [seq].
Proof.
  intros Hne Hlen. unfold paginate. destruct seq as [|x seq]; [done|].
  cbn [length paginate_go]. rewrite take_ge, drop_ge by done.
  by destruct (length seq).
Qed.

Lemma insert_do_nothing_null (accepts : tuple → bool) (t : Z) (values : list tuple)
    (tbl : table) (s q : option string) (tg : option (list string)) :
  (None, s, q, tg) ∈ values → insert_do_nothing accepts t values tbl = None.
Proof.
  revert tbl. induction values as [|[[[url s'] q'] tg'] rest IH]; intros tbl Hin.
  - by apply not_elem_of_nil in Hin.
  - cbn [insert_do_nothing]. destruct (negb (accepts (url, s', q', tg'))); [done|].
    destruct url as [k|]; [|done].
    apply elem_of_cons in Hin as [[=]|Hin]. destruct (tbl !! k); by apply IH.
Qed.

Lemma insert_do_update_null (accepts : tuple → bool) (t : Z) (values : list tuple)
    (touched : gset string) (tbl : table) (s q : option string)
    (tg : option (list string)) :
  (None, s, q, tg) ∈ values → insert_do_update accepts t values touched tbl = None.
Proof.
  revert touched tbl. induction values as [|[[[url s'] q'] tg'] rest IH];
    intros touched tbl Hin.
  - by apply not_elem_of_nil in Hin.
  - cbn [insert_do_update]. destruct (negb (accepts (url, s', q', tg'))); [done|].
    destruct url as [k|]; [|done].
    apply elem_of_cons in Hin as [[=]|Hin].
    case_bool_decide; [done|by apply IH].
Qed.

(** A tuple that the driver or the server refuses fails the statement. *)
Lemma insert_do_nothing_refused (accepts : tuple → bool) (t : Z) (values : list tuple)
    (tbl : table) (v : tuple) :
  v ∈ values → accepts v = false → insert_do_nothing accepts t values tbl = None.
Proof.
  revert tbl. induction values as [|[[[url s] q] tg] rest IH]; intros tbl Hin Hv.
  - by apply not_elem_of_nil in Hin.
  - cbn [insert_do_nothing]. apply elem_of_cons in Hin as [->|Hin].
    + by rewrite Hv.
    + destruct (negb (accepts (url, s, q, tg))); [done|].
      destruct url as [k|]; [|done]. destruct (tbl !! k); by apply IH.
Qed.

Lemma insert_do_update_refused (accepts : tuple → bool) (t : Z) (values : list tuple)
    (touched : gset string) (tbl : table) (v : tuple) :
  v ∈ values → accepts v = false → insert_do_update accepts t values touched tbl = None.
Proof.
  revert touched tbl. induction values as [|[[[url s] q] tg] rest IH];
    intros touched tbl Hin Hv.
  - by apply not_elem_of_nil in Hin.
  - cbn [insert_do_update]. apply elem_of_cons in Hin as [->|Hin].
    + by rewrite Hv.
    + destruct (negb (accepts (url, s, q, tg))); [done|].
      destruct url as [k|]; [|done]. case_bool_decide; [done|by apply IH].
Qed.

Lemma insert_do_nothing_succeeds (accepts : tuple → bool) (t : Z) (values : list tuple)
    (tbl : table) :
  (∀ v, v ∈ values → accepts v = true) →
  (∀ v, v ∈ values → is_Some v.1.1.1) →
  is_Some (insert_do_nothing accepts t values tbl).
Proof.
  revert tbl. induction values as [|[[[k s] q] tg] rest IH]; intros tbl Hacc Hall;
    [by eexists|].
  destruct (Hall (k, s, q, tg)) as [u Hu]; [by left|]. cbn [fst] in Hu. subst k.
  cbn [insert_do_nothing]. rewrite (Hacc (Some u, s, q, tg)) by (by left). cbn [negb].
  destruct (tbl !! u); apply IH; intros v Hv; (apply Hacc || apply Hall); by right.
Qed.

(** A successful insert-or-update statement wrote distinct keys, none of
    them written before in the statement. *)
Lemma insert_do_update_distinct (accepts : tuple → bool) (t : Z) (values : list tuple)
    (touched : gset string) (tbl tbl' : table) :
  insert_do_update accepts t values touched tbl = Some tbl' →
  NoDup (map (λ v : tuple, v.1.1.1) values)
  ∧ ∀ u, Some u ∈ map (λ v : tuple, v.1.1.1) values → u ∉ touched.
Proof.
  revert touched tbl. induction values as [|[[[url s] q] tg] rest IH];
    intros touched tbl Hrun.
  - split; [constructor|]. intros u Hu. by apply not_elem_of_nil in Hu.
  - apply insert_do_update_cons in Hrun as (k & -> & _ & Hk & Hrun).
    destruct (IH _ _ Hrun) as [Hnd Hfresh]. cbn [map fst]. split.
    + apply NoDup_cons. split; [|done]. intros Hin. apply (Hfresh k Hin).
      apply elem_of_union. left. by apply elem_of_singleton.
    + intros u [[= ->]|Hu]%elem_of_cons; [done|].
      intros Hut. apply (Hfresh u Hu). apply elem_of_union. by right.
Qed.

(** ** The two write paths *)

(** X1: a batch in which some article has no URL stores nothing, on
    either write path: the null key fails the statement and the whole
    transaction is rolled back. *)
Theorem write_batch_with_missing_url_stores_nothing (E : env) (articles : list article)
    (a : article) (w : world) :
  a ∈ articles → get_url a = None →
  articles_table (append_articles E articles w).2 = articles_table w
  ∧ articles_table (store_articles E articles w).2 = articles_table w.
Proof.
  intros Ha Hu.
  assert (Hin : (None, get_summary a, get_query a, get_tags a) ∈ map data_tuple articles).
  { apply list_elem_of_In, in_map_iff. exists a. unfold data_tuple. rewrite Hu.
    split; [done|by apply list_elem_of_In]. }
  destruct (paginate_covers 99 _ _ Hin) as (page & Hpage & Hnull).
  split.
  - rewrite append_articles_run. cbn [snd articles_table].
    destruct (db_session E (connections w)) as [t|]; [|done].
    unfold execute_values.
    rewrite (run_pages_failing_page _ _ page); [done|done|].
    intros tb. by eapply insert_do_nothing_null.
  - rewrite store_articles_run. cbn [snd articles_table].
    destruct (db_session E (connections w)) as [t|]; [|done].
    unfold execute_values.
    rewrite (run_pages_failing_page _ _ page); [done|done|].
    intros tb. by eapply insert_do_update_null.
Qed.

Lemma write_batch_with_missing_url_stores_nothing_witness :
  let batch := [Scenario.revised_article;
                Article None None (Some "no address") None None None] in
  articles_table (append_articles Scenario.quiet batch Scenario.one_row).2
    = articles_table Scenario.one_row
  ∧ articles_table (store_articles Scenario.quiet batch Scenario.one_row).2
    = articles_table Scenario.one_row.
Proof.
  apply (write_batch_with_missing_url_stores_nothing Scenario.quiet _
           (Article None None (Some "no address") None None None)).
  - apply list_elem_of_In. vm_compute. auto.
  - reflexivity.
Defined.

(** X28: a batch with a tuple that the store does not take stores
    nothing, on either write path: a string with a NUL character, which
    the driver cannot adapt, or a tuple the server refuses fails
    [execute_values], and the transaction is rolled back. *)
Theorem write_batch_with_refused_tuple_stores_nothing (E : env)
    (articles : list article) (a : article) (w : world) :
  a ∈ articles →
  accepted E (connections w) (data_tuple a) = false →
  articles_table (append_articles E articles w).2 = articles_table w
  ∧ articles_table (store_articles E articles w).2 = articles_table w.
Proof.
  intros Ha Hrefused.
  assert (Hin : data_tuple a ∈ map data_tuple articles).
  { apply list_elem_of_In, in_map. by apply list_elem_of_In. }
  destruct (paginate_covers 99 _ _ Hin) as (page & Hpage & Hv).
  split.
  - rewrite append_articles_run. cbn [snd articles_table].
    destruct (db_session E (connections w)) as [t|]; [|done].
    unfold execute_values.
    rewrite (run_pages_failing_page _ _ page); [done|done|].
    intros tb. by eapply insert_do_nothing_refused.
  - rewrite store_articles_run. cbn [snd articles_table].
    destruct (db_session E (connections w)) as [t|]; [|done].
    unfold execute_values.
    rewrite (run_pages_failing_page _ _ page); [done|done|].
    intros tb. by eapply insert_do_update_refused.
Qed.

Lemma write_batch_with_refused_tuple_stores_nothing_witness :
  let batch := [Scenario.revised_article;
                Article (Some "https://example.com/n") None
                        (Some (String Ascii.zero "summary")) None (Some ["tariff"]) None] in
  articles_table (append_articles Scenario.quiet batch Scenario.one_row).2
    = articles_table Scenario.one_row
  ∧ articles_table (store_articles Scenario.quiet batch Scenario.one_row).2
    = articles_table Scenario.one_row.
Proof.
  apply (write_batch_with_refused_tuple_stores_nothing Scenario.quiet _
           (Article (Some "https://example.com/n") None
                    (Some (String Ascii.zero "summary")) None (Some ["tariff"]) None)).
  - apply list_elem_of_In. vm_compute. auto.
  - reflexivity.
Defined.

Lemma insert_do_nothing_first (accepts : tuple → bool) (t : Z) (pre post : list tuple)
    (tbl tbl' : table) (u : string) (s q : option string) (tg : option (list string)) :
  insert_do_nothing accepts t (pre ++ (Some u, s, q, tg) :: post) tbl = Some tbl' →
  (∀ v, v ∈ pre → v.1.1.1 ≠ Some u) →
  tbl !! u = None →
  tbl' !! u = Some (inserted_row t s q tg).
Proof.
  intros Hrun Hpre Hno. rewrite insert_do_nothing_app in Hrun.
  destruct (insert_do_nothing accepts t pre tbl) as [tb|] eqn:Hp; [|done].
  pose proof (insert_do_nothing_other _ _ _ _ _ u Hp Hpre) as Hsame.
  apply insert_do_nothing_cons in Hrun as (k & [= <-] & _ & Hrun).
  rewrite Hsame, Hno in Hrun.
  eapply insert_do_nothing_keeps; [exact Hrun|]. apply lookup_insert_eq.
Qed.

Lemma append_articles_stores_first (E : env) (w : world) (pre post : list article)
    (a : article) (u : string) (t : Z) :
  db_session E (connections w) = Some t →
  batch_accepted E w (pre ++ a :: post) →
  (∀ b, b ∈ pre ++ a :: post → is_Some (get_url b)) →
  get_url a = Some u →
  (∀ b, b ∈ pre → get_url b ≠ Some u) →
  articles_table w !! u = None →
  articles_table (append_articles E (pre ++ a :: post) w).2 !! u
  = Some (Row (get_summary a) (get_query a) (get_tags a) t).
Proof.
  intros Ht Hacc Hall Hu Hpre Hno. rewrite append_articles_run, Ht.
  cbn [snd articles_table]. rewrite execute_values_insert_do_nothing.
  destruct (insert_do_nothing_succeeds (accepted E (connections w)) t
              (map data_tuple (pre ++ a :: post)) (articles_table w)) as [tbl' Hrun].
  { intros v Hv. apply list_elem_of_In, in_map_iff in Hv as (b & <- & Hb).
    apply Hacc. by apply list_elem_of_In. }
  { intros v Hv. apply list_elem_of_In, in_map_iff in Hv as (b & <- & Hb).
    apply Hall. by apply list_elem_of_In. }
  rewrite Hrun. cbn [default].
  rewrite map_app in Hrun. cbn [map] in Hrun. unfold data_tuple at 2 in Hrun.
  rewrite Hu in Hrun.
  apply (insert_do_nothing_first _ _ _ _ _ _ _ _ _ _ Hrun); [|done].
  intros v Hv. apply list_elem_of_In, in_map_iff in Hv as (b & <- & Hb).
  apply Hpre. by apply list_elem_of_In.
Qed.

(** X2: when the store is reachable and takes every tuple of the batch,
    [append_articles] commits a batch that repeats a URL, and for a URL not
    yet stored it is the first article of the batch with that URL whose
    summary, query and tags are stored, stamped with the transaction
    time. *)
Theorem append_articles_first_occurrence_wins (E : env) (w : world)
    (pre post : list article) (a : article) (u : string) (t : Z) :
  db_session E (connections w) = Some t →
  batch_accepted E w (pre ++ a :: post) →
  (∀ b, b ∈ pre ++ a :: post → is_Some (get_url b)) →
  get_url a = Some u →
  (∀ b, b ∈ pre → get_url b ≠ Some u) →
  articles_table w !! u = None →
  articles_table (append_articles E (pre ++ a :: post) w).2 !! u
  = Some (Row (get_summary a) (get_query a) (get_tags a) t).
Proof.
  intros Ht Hacc Hall Hu Hpre Hno. rewrite append_articles_run, Ht.
  cbn [snd articles_table]. rewrite execute_values_insert_do_nothing.
  assert (Htaken : ∀ v, v ∈ map data_tuple (pre ++ a :: post) →
                        accepted E (connections w) v = true).
  { intros v Hv. apply list_elem_of_In, in_map_iff in Hv as (b & <- & Hb).
    apply Hacc. by apply list_elem_of_In. }
  assert (Hurls : ∀ v, v ∈ map data_tuple (pre ++ a :: post) → is_Some v.1.1.1).
  { intros v Hv. apply list_elem_of_In, in_map_iff in Hv as (b & <- & Hb).
    apply Hall. by apply list_elem_of_In. }
  destruct (insert_do_nothing_succeeds _ t _ (articles_table w) Htaken Hurls)
    as [tbl' Hrun].
  rewrite Hrun. cbn [default].
  rewrite map_app in Hrun. cbn [map] in Hrun. unfold data_tuple at 2 in Hrun.
  rewrite Hu in Hrun.
  eapply insert_do_nothing_first; [exact Hrun| |exact Hno].
  intros v Hv. apply list_elem_of_In, in_map_iff in Hv as (b & <- & Hb).
  apply Hpre. by apply list_elem_of_In.
Qed.

Lemma append_articles_first_occurrence_wins_witness :
  articles_table
    (append_articles Scenario.quiet
       ([Scenario.fetched "https://b.example" "B"]
          ++ Scenario.tariff_article :: [Scenario.revised_article])
       Scenario.empty_store).2 !! "https://example.com/a"
  = Some (Row (Some "Tariff news") (Some "tariff rules") (Some ["trump"; "tariff"]) 1000).
Proof.
  apply (append_articles_first_occurrence_wins Scenario.quiet Scenario.empty_store
           [Scenario.fetched "https://b.example" "B"] [Scenario.revised_article]
           Scenario.tariff_article "https://example.com/a" 1000).
  - reflexivity.
  - intros b Hb. apply list_elem_of_In in Hb. cbn in Hb.
    destruct Hb as [<-|[<-|[<-|[]]]]; reflexivity.
  - intros b Hb. apply list_elem_of_In in Hb. cbn in Hb.
    destruct Hb as [<-|[<-|[<-|[]]]]; by eexists.
  - reflexivity.
  - intros b Hb. apply list_elem_of_singleton in Hb as ->. done.
  - reflexivity.
Defined.

(** X3: neither write path touches a row whose URL is not the URL of an
    article of the batch, whatever the store does. *)
Theorem writes_touch_only_batch_urls (E : env) (articles : list article) (w : world)
    (u : string) :
  (∀ a, a ∈ articles → get_url a ≠ Some u) →
  articles_table (append_articles E articles w).2 !! u = articles_table w !! u
  ∧ articles_table (store_articles E articles w).2 !! u = articles_table w !! u.
Proof.
  intros Hno.
  assert (Hpage : ∀ page v, page ∈ paginate 100 (map data_tuple articles) →
                            v ∈ page → v.1.1.1 ≠ Some u).
  { intros page v Hp Hv. pose proof (paginate_elem 99 _ _ _ Hp Hv) as Hin.
    apply list_elem_of_In, in_map_iff in Hin as (a & <- & Ha).
    apply Hno. by apply list_elem_of_In. }
  split.
  - rewrite append_articles_run. cbn [snd articles_table].
    destruct (db_session E (connections w)) as [t|]; [|done].
    destruct (execute_values _ _ _) as [tbl'|] eqn:Hrun; [|done]. cbn [default].
    refine (execute_values_invariant _ (λ tb, tb !! u = articles_table w !! u)
              _ _ _ _ Hrun eq_refl).
    intros page tb tb' Hp Hst <-. eapply insert_do_nothing_other; [exact Hst|].
    intros v. by apply Hpage.
  - rewrite store_articles_run. cbn [snd articles_table].
    destruct (db_session E (connections w)) as [t|]; [|done].
    destruct (execute_values _ _ _) as [tbl'|] eqn:Hrun; [|done]. cbn [default].
    refine (execute_values_invariant _ (λ tb, tb !! u = articles_table w !! u)
              _ _ _ _ Hrun eq_refl).
    intros page tb tb' Hp Hst <-. eapply insert_do_update_other; [exact Hst|].
    intros v. by apply Hpage.
Qed.

Lemma writes_touch_only_batch_urls_witness :
  articles_table
    (append_articles Scenario.quiet [Scenario.revised_article] Scenario.archive).2
    !! "https://example.com/b"
  = articles_table Scenario.archive !! "https://example.com/b"
  ∧ articles_table
      (store_articles Scenario.quiet [Scenario.revised_article] Scenario.archive).2
      !! "https://example.com/b"
    = articles_table Scenario.archive !! "https://example.com/b".
Proof.
  apply (writes_touch_only_batch_urls Scenario.quiet [Scenario.revised_article]
           Scenario.archive "https://example.com/b").
  intros a Ha. apply list_elem_of_singleton in Ha as ->. done.
Defined.

(** X4: [store_articles] rejects a batch of at most a hundred articles
    that repeats a URL: the insert-or-update statement may not affect a row
    twice, the transaction is rolled back and the table is as before. *)
Theorem store_articles_rejects_repeated_url (E : env) (articles : list article)
    (w : world) :
  length articles ≤ 100 →
  ¬ NoDup (map get_url articles) →
  articles_table (store_articles E articles w).2 = articles_table w.
Proof.
  intros Hlen Hdup. rewrite store_articles_run. cbn [snd articles_table].
  destruct (db_session E (connections w)) as [t|]; [|done].
  destruct articles as [|a l]; [by destruct Hdup; constructor|].
  unfold execute_values. rewrite paginate_single; [|done|by rewrite length_map].
  rewrite run_pages_cons.
  destruct (insert_do_update _ t (map data_tuple (a :: l)) ∅ (articles_table w))
    as [tb|] eqn:Hst; [|done].
  exfalso. apply Hdup.
  destruct (insert_do_update_distinct _ _ _ _ _ _ Hst) as [Hnd _].
  by rewrite map_map in Hnd.
Qed.

Lemma store_articles_rejects_repeated_url_witness :
  articles_table
    (store_articles Scenario.quiet [Scenario.revised_article; Scenario.tariff_article]
       Scenario.one_row).2
  = articles_table Scenario.one_row.
Proof.
  apply (store_articles_rejects_repeated_url Scenario.quiet
           [Scenario.revised_article; Scenario.tariff_article] Scenario.one_row).
  - cbn. lia.
  - intros Hnd. apply NoDup_cons in Hnd as [Hnot _]. apply Hnot. by left.
Defined.

(** ** Reading the store *)

Lemma select_overlapping_no_tags (tbl : table) : select_overlapping tbl [] = [].
Proof.
  unfold select_overlapping. induction (map_to_list tbl) as [|[u r] l IH]; [done|].
  cbn [flat_map fst snd]. rewrite IH.
  destruct (col_tags r) as [ts|]; [|done].
  assert (Hno : array_overlap (Some ts) [] = false).
  { unfold array_overlap. induction ts as [|x ts IHts]; [done|].
    cbn [existsb]. rewrite IHts. rewrite bool_decide_eq_false_2; [done|].
    apply not_elem_of_nil. }
  by rewrite Hno.
Qed.

(** X5: [query_database_by_tags] with an empty query tag list returns no
    article, whatever the bound, also for a bound of zero or below. *)
Theorem query_with_no_tags_finds_nothing (E : env) (min_matches : Z) (w : world) :
  (query_database_by_tags E [] min_matches w).1 = Return [].
Proof.
  rewrite query_database_by_tags_run. cbn [fst].
  destruct (db_session E (connections w)); [|done].
  by rewrite select_overlapping_no_tags.
Qed.

(** X6: every bound below one gives the result of the bound one: the
    overlap test of the statement has already asked for one common tag. *)
Theorem query_bounds_below_one_agree (E : env) (query_tags : list string)
    (min_matches : Z) (w : world) :
  (min_matches ≤ 1)%Z →
  (query_database_by_tags E query_tags min_matches w).1
  = (query_database_by_tags E query_tags 1 w).1.
Proof.
  intros Hk. rewrite !query_database_by_tags_run. cbn [fst].
  destruct (db_session E (connections w)); [|done].
  destruct (adaptable_list query_tags); [|done].
  do 2 f_equal. apply filter_ext_in. intros [[u r] ts] Hin. cbn [snd].
  apply list_elem_of_In, select_overlapping_spec in Hin as (_ & _ & Hone).
  rewrite (proj2 (Z.leb_le _ _)) by lia. rewrite (proj2 (Z.leb_le _ _)) by lia. done.
Qed.

Lemma query_bounds_below_one_agree_witness :
  (query_database_by_tags Scenario.quiet ["tariff"; "china"] (-3) Scenario.archive).1
  = (query_database_by_tags Scenario.quiet ["tariff"; "china"] 1 Scenario.archive).1.
Proof.
  apply (query_bounds_below_one_agree Scenario.quiet ["tariff"; "china"] (-3)
           Scenario.archive).
  lia.
Defined.

(** A stored row that shares enough tags is among the results. *)
Lemma query_database_by_tags_finds (E : env) (query_tags : list string) (k : Z)
    (w : world) (u : string) (r : row) (ts : list string) :
  is_Some (db_session E (connections w)) →
  adaptable_list query_tags = true →
  articles_table w !! u = Some r →
  col_tags r = Some ts →
  (Z.max 1 k ≤ Z.of_nat (size (common_tags ts query_tags)))%Z →
  ∃ results w', query_database_by_tags E query_tags k w = (Return results, w')
                ∧ dict_of_row u r ∈ results.
Proof.
  intros [t Ht] Hqt Hlk Htg Hk. rewrite query_database_by_tags_run, Ht, Hqt.
  eexists _, _. split; [reflexivity|].
  apply list_elem_of_In, in_map_iff. exists (u, r, ts). split; [done|].
  apply filter_In. split.
  - apply list_elem_of_In, select_overlapping_spec. split_and!; [done|done|lia].
  - cbn [snd]. apply Z.leb_le. lia.
Qed.

(** X7: what [append_articles] stores is found by its tags.  When the
    store is reachable and takes the tuple of an article with a new URL,
    so that the append is committed, a later lookup over a connection that
    opens, with a tag list the driver can adapt that shares at least
    [max 1 min_matches] tags with the article's tags, returns the article
    as stored. *)
Theorem appended_article_is_found_by_its_tags (E : env) (w : world) (a : article)
    (u : string) (ts query_tags : list string) (min_matches t : Z) :
  db_session E (connections w) = Some t →
  batch_accepted E w [a] →
  is_Some (db_session E (S (connections w))) →
  adaptable_list query_tags = true →
  get_url a = Some u → get_tags a = Some ts →
  articles_table w !! u = None →
  (Z.max 1 min_matches ≤ Z.of_nat (size (common_tags ts query_tags)))%Z →
  ∃ results w',
    query_database_by_tags E query_tags min_matches (append_articles E [a] w).2
      = (Return results, w')
    ∧ dict_of_row u (Row (get_summary a) (get_query a) (Some ts) t) ∈ results.
Proof.
  intros Ht Hacc Ht' Hqt Hu Htags Hno Hk.
  apply (query_database_by_tags_finds _ _ _ _ _ _ ts).
  - rewrite append_articles_run. exact Ht'.
  - done.
  - rewrite <- Htags.
    apply (append_articles_stores_first E w [] [] a u t); try done.
    + intros b Hb. apply list_elem_of_singleton in Hb as ->. by eexists.
    + intros b Hb. by apply not_elem_of_nil in Hb.
  - done.
  - done.
Qed.

Lemma appended_article_is_found_by_its_tags_witness :
  ∃ results w',
    query_database_by_tags Scenario.quiet ["tariff"; "china"] 1
      (append_articles Scenario.quiet [Scenario.tariff_article] Scenario.empty_store).2
      = (Return results, w')
    ∧ dict_of_row "https://example.com/a"
        (Row (Some "Tariff news") (Some "tariff rules") (Some ["trump"; "tariff"]) 1000)
      ∈ results.
Proof.
  apply (appended_article_is_found_by_its_tags Scenario.quiet Scenario.empty_store
           Scenario.tariff_article "https://example.com/a" ["trump"; "tariff"]
           ["tariff"; "china"] 1 1000).
  - reflexivity.
  - intros b Hb. apply list_elem_of_singleton in Hb as ->. reflexivity.
  - by eexists.
  - reflexivity.
  - reflexivity.
  - reflexivity.
  - reflexivity.
  - vm_compute. discriminate.
Defined.

Lemma check_duplicate_article_run (E : env) (u : string) (w : world) :
  check_duplicate_article E u w =
  (Return (match db_session E (connections w) with
           | Some _ => negb (has_nul u) && bool_decide (is_Some (articles_table w !! u))
           | None => false
           end),
   World (articles_table w) (S (connections w)) (calls w)).
Proof.
  unfold check_duplicate_article, bind, try_except, connect, adapt, read_table, ret, raise.
  simpl. destruct (db_session E (connections w)); [|done].
  by destruct (has_nul u).
Qed.

(** A URL of an accepted tuple is one the driver can adapt. *)
Lemma accepted_url (E : env) (session : nat) (a : article) (u : string) :
  accepted E session (data_tuple a) = true → get_url a = Some u → has_nul u = false.
Proof.
  unfold accepted, adaptable, data_tuple. cbn [fst snd]. intros Hacc Hu.
  rewrite Hu in Hacc. cbn [nul_free] in Hacc.
  do 4 apply andb_true_iff in Hacc as [Hacc _].
  by apply negb_true_iff in Hacc.
Qed.

(** X8: when the store is reachable and takes every tuple of a batch
    whose articles all have a URL, so that [append_articles] commits it,
    [check_duplicate_article] answers [True] for each of those URLs when
    its own connection opens; when that connection fails it answers
    [False], although the URL is stored. *)
Theorem check_duplicate_article_after_append (E : env) (w : world)
    (articles : list article) (a : article) (u : string) (t : Z) :
  db_session E (connections w) = Some t →
  batch_accepted E w articles →
  (∀ b, b ∈ articles → is_Some (get_url b)) →
  a ∈ articles → get_url a = Some u →
  let w1 := (append_articles E articles w).2 in
  is_Some (articles_table w1 !! u)
  ∧ (is_Some (db_session E (connections w1)) →
       (check_duplicate_article E u w1).1 = Return true)
  ∧ (db_session E (connections w1) = None →
       (check_duplicate_article E u w1).1 = Return false).
Proof.
  intros Ht Hacc Hall Ha Hu w1.
  pose proof (accepted_url _ _ _ _ (Hacc a Ha) Hu) as Hnul.
  assert (Hstored : is_Some (articles_table w1 !! u)).
  { destruct (articles_table w !! u) as [r|] eqn:Hlk.
    - exists r. by apply append_articles_existing_row_wins.
    - apply list_elem_of_split in Ha as (pre & post & ->).
      assert (Hfirst : ∃ pre1 b post1,
                 pre ++ a :: post = pre1 ++ b :: post1 ∧ get_url b = Some u
                 ∧ ∀ c, c ∈ pre1 → get_url c ≠ Some u).
      { clear Hall Hacc w1. induction pre as [|c pre IH].
        - exists [], a, post. split_and!; [done|done|]. intros c Hc.
          by apply not_elem_of_nil in Hc.
        - destruct (decide (get_url c = Some u)) as [Hc|Hc].
          + exists [], c, (pre ++ a :: post). split_and!; [done|done|].
            intros c' Hc'. by apply not_elem_of_nil in Hc'.
          + destruct IH as (pre1 & b & post1 & Heq & Hb & Hpre1).
            exists (c :: pre1), b, post1. split_and!; [by rewrite <- app_comm_cons, Heq|done|].
            intros c' [->|Hc']%elem_of_cons; [done|by apply Hpre1]. }
      destruct Hfirst as (pre1 & b & post1 & Heq & Hb & Hpre1).
      subst w1. rewrite Heq in Hall, Hacc |- *.
      rewrite (append_articles_stores_first E w pre1 post1 b u t); try done.
  }
  split; [done|]. rewrite check_duplicate_article_run. cbn [fst]. rewrite Hnul. split.
  - intros [t' ->]. by rewrite bool_decide_eq_true_2.
  - by intros ->.
Qed.

Lemma check_duplicate_article_after_append_witness :
  let w1 := (append_articles Scenario.quiet [Scenario.tariff_article]
               Scenario.empty_store).2 in
  is_Some (articles_table w1 !! "https://example.com/a")
  ∧ (is_Some (db_session Scenario.quiet (connections w1)) →
       (check_duplicate_article Scenario.quiet "https://example.com/a" w1).1
       = Return true)
  ∧ (db_session Scenario.quiet (connections w1) = None →
       (check_duplicate_article Scenario.quiet "https://example.com/a" w1).1
       = Return false).
Proof.
  apply (check_duplicate_article_after_append Scenario.quiet Scenario.empty_store
           [Scenario.tariff_article] Scenario.tariff_article "https://example.com/a" 1000).
  - reflexivity.
  - intros b Hb. apply list_elem_of_singleton in Hb as ->. reflexivity.
  - intros b Hb. apply list_elem_of_singleton in Hb as ->. by eexists.
  - by left.
  - reflexivity.
Defined.

(** X9: [extract_tags] returns a tag exactly when KeyBERT scored it
    strictly above the threshold, so with a KeyBERT that honours [top_n] it
    returns at most [top_n] tags. *)
Theorem extract_tags_keeps_high_scores (E : env) (query : string) (top_n : nat)
    (w : world) (keywords : list (string * Q)) :
  kw_extract_keywords E query top_n = Return keywords →
  length keywords ≤ top_n →
  ∃ tags, (extract_tags E query top_n w).1 = Return tags
    ∧ length tags ≤ top_n
    ∧ ∀ tag, tag ∈ tags ↔ ∃ score, (tag, score) ∈ keywords ∧ (threshold < score)%Q.
Proof.
  intros Hkw Hlen. rewrite extract_tags_run, Hkw. eexists. split; [reflexivity|]. split.
  - rewrite length_map. etrans; [apply filter_length_le|done].
  - intros tag. rewrite list_elem_of_In, in_map_iff. split.
    + intros ([tag' score] & <- & Hin). apply filter_In in Hin as [Hin Hs].
      exists score. split; [by apply list_elem_of_In|].
      cbn [snd] in Hs. apply negb_true_iff in Hs.
      apply Qnot_le_lt. intros Hle. apply Qle_bool_iff in Hle. congruence.
    + intros (score & Hin & Hs). exists (tag, score). split; [done|].
      apply filter_In. split; [by apply list_elem_of_In|].
      cbn [snd]. apply negb_true_iff. destruct (Qle_bool score threshold) eqn:Hle; [|done].
      apply Qle_bool_iff in Hle. by apply Qlt_not_le in Hs.
Qed.

Lemma extract_tags_keeps_high_scores_witness :
  ∃ tags, (extract_tags Scenario.newsroom "new tariff rules" 5 Scenario.archive).1
          = Return tags
    ∧ length tags ≤ 5
    ∧ ∀ tag, tag ∈ tags ↔
        ∃ score, (tag, score) ∈ [("tariff", 1 # 2); ("trump", 2 # 5); ("china", 3 # 10);
                                 ("rules", 1 # 4); ("new", 1 # 10)]
                 ∧ (threshold < score)%Q.
Proof.
  apply (extract_tags_keeps_high_scores Scenario.newsroom "new tariff rules" 5
           Scenario.archive).
  - reflexivity.
  - cbn. lia.
Defined.

(** * Further properties of the orchestrator *)

(** The four ways lines 92-126 can end, with the world each leaves. *)
Lemma merged_set_world (E : env) (query : string) (w : world) :
  let ext := Call_extract_keywords query 5 in
  let w1 := World (articles_table w) (connections w) (calls w ++ [ext]) in
  (∃ e, merged_set E query w = (Raise e, w1))
  ∨ ∃ tags cached,
      let w2 := World (articles_table w) (S (connections w))
                  (calls w1 ++ [Call_query_database_by_tags tags 4]) in
      extract_tags E query 5 w = (Return tags, w1)
      ∧ query_database_by_tags E tags 4 w1 = (Return cached, w2)
      ∧ ((MIN_ARTICLE_THRESHOLD ≤ length cached
          ∧ merged_set E query w = (Return cached, w2))
         ∨ ∃ fetched,
             let w3 := World (articles_table w) (S (connections w))
                         (calls w2 ++ [Call_get_data_and_summarize query 5]) in
             let batch := survivors query tags cached fetched in
             length cached < MIN_ARTICLE_THRESHOLD
             ∧ supplement_data E query 5 w2 = (Return fetched, w3)
             ∧ ((batch = [] ∧ merged_set E query w = (Return cached, w3))
                ∨ (batch ≠ []
                   ∧ merged_set E query w
                     = (Return (cached ++ batch), (append_articles E batch w3).2)))).
Proof.
  intros ext w1.
  destruct (extract_tags E query 5 w) as [[tags|e] w1'] eqn:Htags.
  - pose proof (extract_tags_world _ _ _ _ _ _ Htags) as ->. fold ext w1 in Htags.
    right. exists tags.
    destruct (query_database_by_tags_returns E tags 4 w1) as (cached & w2' & Hdb).
    pose proof (query_database_by_tags_world _ _ _ _ _ _ Hdb) as ->.
    exists cached. cbn zeta. split; [done|]. split; [exact Hdb|].
    destruct (decide (MIN_ARTICLE_THRESHOLD ≤ length cached)) as [Hlen|Hlen].
    + left. split; [done|]. by eapply merged_set_sufficient.
    + right.
      destruct (supplement_data_returns E query 5
                  (World (articles_table w1) (S (connections w1))
                     (calls w1 ++ [Call_query_database_by_tags tags 4])))
        as (fetched & w3' & Hs).
      pose proof (supplement_data_world _ _ _ _ _ _ Hs) as ->.
      exists fetched. assert (Hlt : length cached < MIN_ARTICLE_THRESHOLD) by lia.
      split; [done|]. split; [exact Hs|].
      pose proof (merged_set_supplementing _ _ _ _ _ _ _ _ _ Htags Hdb Hlt Hs) as Hm.
      destruct (survivors query tags cached fetched) as [|s l] eqn:Hb.
      * left. split; [done|]. by rewrite app_nil_r in Hm.
      * right. split; [done|]. exact Hm.
  - pose proof (extract_tags_world _ _ _ _ _ _ Htags) as ->. left. exists e.
    by apply merged_set_raises.
Qed.

Lemma generate_report_for_query_world (E : env) (query extra : string) (w : world) :
  let w' := (merged_set E query w).2 in
  (generate_report_for_query E query extra w).2 = w'
  ∨ ∃ prompt,
      (generate_report_for_query E query extra w).2
      = World (articles_table w') (connections w') (calls w' ++ [Call_chat_completions prompt]).
Proof.
  intros w'. subst w'. rewrite generate_report_for_query_run.
  destruct (merged_set E query w) as [[[|a l]|e] wm]; [by left| |by left].
  right. rewrite generate_analysis_report_run. by eexists.
Qed.

Lemma generate_report_for_query_keeps_rows (E : env) (query extra : string) (w : world)
    (u : string) (r : row) :
  articles_table w !! u = Some r →
  articles_table (generate_report_for_query E query extra w).2 !! u = Some r.
Proof.
  intros Hr. rewrite generate_report_for_query_table.
  destruct (merged_set_world E query w)
    as [[e Hm]|(tags & cached & _ & _ & [[_ Hm]|(fetched & _ & _ & [[_ Hm]|[_ Hm]])])];
    rewrite Hm; cbn [snd articles_table]; try done.
  by apply append_articles_existing_row_wins.
Qed.

(** X10: a run of the orchestrator never changes or removes a row that
    is already stored, whatever the collaborators do. *)
Theorem orchestrator_keeps_stored_rows (E : env) (query extra : string) (w : world)
    (u : string) (r : row) :
  articles_table w !! u = Some r →
  articles_table (generate_report_for_query E query extra w).2 !! u = Some r.
Proof.
  intros Hr. rewrite generate_report_for_query_table.
  destruct (merged_set_world E query w) as [[e Hm]|(tags & cached & _ & _ & Hcases)].
  - by rewrite Hm.
  - destruct Hcases as [[_ Hm]|(fetched & _ & _ & [[_ Hm]|[_ Hm]])]; rewrite Hm.
    + done.
    + done.
    + cbn [snd]. by apply append_articles_existing_row_wins.
Qed.

Lemma orchestrator_keeps_stored_rows_witness :
  articles_table
    (generate_report_for_query Scenario.newsroom "new tariff rules" "" Scenario.archive).2
    !! "https://example.com/b"
  = Some (Row (Some "Rules for China") (Some "china rules")
              (Some ["rules"; "china"; "tariff"; "trump"]) 20).
Proof.
  apply (orchestrator_keeps_stored_rows Scenario.newsroom "new tariff rules" ""
           Scenario.archive).
  reflexivity.
Defined.

Lemma count_calls_snoc (p : event → bool) (l : list event) (ev : event) :
  count_calls p (l ++ [ev]) = count_calls p l + (if p ev then 1 else 0).
Proof. rewrite count_calls_app. unfold count_calls. cbn. by destruct (p ev). Qed.

(** X11: one run of the orchestrator opens at most two database
    connections and calls the fetcher, [append_articles] and the chat model
    at most once each. *)
Theorem orchestrator_calls_are_bounded (E : env) (query extra : string) (w : world) :
  let w' := (generate_report_for_query E query extra w).2 in
  connections w' ≤ connections w + 2
  ∧ count_calls is_fetcher_call (calls w') ≤ count_calls is_fetcher_call (calls w) + 1
  ∧ count_calls is_append_call (calls w') ≤ count_calls is_append_call (calls w) + 1
  ∧ count_calls is_narration_call (calls w') ≤ count_calls is_narration_call (calls w) + 1.
Proof.
  intros w'. subst w'.
  assert (Hm : let wm := (merged_set E query w).2 in
               connections wm ≤ connections w + 2
               ∧ count_calls is_fetcher_call (calls wm)
                 ≤ count_calls is_fetcher_call (calls w) + 1
               ∧ count_calls is_append_call (calls wm)
                 ≤ count_calls is_append_call (calls w) + 1
               ∧ count_calls is_narration_call (calls wm)
                 = count_calls is_narration_call (calls w)).
  { destruct (merged_set_world E query w)
      as [[e Hm]|(tags & cached & _ & _ & [[_ Hm]|(fetched & _ & _ & [[_ Hm]|[_ Hm]])])];
      rewrite Hm; try rewrite append_articles_run; cbn [snd connections calls];
      rewrite !count_calls_snoc;
      cbn [is_fetcher_call is_append_call is_narration_call];
      split_and!; lia. }
  destruct Hm as (Hc & Hf & Ha & Hn).
  destruct (generate_report_for_query_world E query extra w) as [->|[prompt ->]].
  - split_and!; [done|done|done|lia].
  - cbn [connections calls]. rewrite !count_calls_snoc.
    cbn [is_fetcher_call is_append_call is_narration_call].
    split_and!; lia.
Qed.

(** ** URLs of the merged set *)

Lemma urls_of_cons_Some (a : article) (l : list article) (u : string) :
  get_url a = Some u → urls_of (a :: l) = u :: urls_of l.
Proof. intros Hu. unfold urls_of. cbn. by rewrite Hu. Qed.

Lemma urls_of_cons_None (a : article) (l : list article) :
  get_url a = None → urls_of (a :: l) = urls_of l.
Proof. intros Hu. unfold urls_of. cbn. by rewrite Hu. Qed.

Lemma urls_of_elem (l : list article) (u : string) :
  u ∈ urls_of l ↔ ∃ a, a ∈ l ∧ get_url a = Some u.
Proof. unfold urls_of. apply list_elem_of_omap. Qed.

(** What a kept candidate satisfies. *)
Lemma survivors_elem (query : string) (tags : list string)
    (cached fetched : list article) (a : article) :
  a ∈ survivors query tags cached fetched →
  ∃ c u, c ∈ fetched ∧ a = set_query_and_tags query tags c
         ∧ get_url c = Some u ∧ String.prefix "http" u = true
         ∧ u ∉ urls_of cached.
Proof.
  unfold survivors. intros Ha. apply list_elem_of_In, in_map_iff in Ha as (c & <- & Hc).
  apply filter_In in Hc as [Hc Hkeep]. unfold keep_supplementary in Hkeep.
  destruct (get_url c) as [u|] eqn:Hu; [|done].
  apply andb_true_iff in Hkeep as [Hp Hnew]. apply bool_decide_eq_true in Hnew.
  exists c, u. split_and!; [by apply list_elem_of_In|done|done|done|].
  intros Hin. apply Hnew. by apply elem_of_list_to_set.
Qed.

Lemma survivors_distinct_urls (query : string) (tags : list string)
    (cached fetched : list article) :
  NoDup (urls_of fetched) →
  NoDup (urls_of (survivors query tags cached fetched)).
Proof.
  induction fetched as [|c fetched IH]; intros Hnd; [constructor|].
  change (c :: fetched) with ([c] ++ fetched). rewrite survivors_app.
  destruct (get_url c) as [u|] eqn:Hu.
  - rewrite (urls_of_cons_Some _ _ _ Hu) in Hnd. apply NoDup_cons in Hnd as [Hu' Hnd].
    unfold survivors at 1. cbn [List.filter].
    destruct (keep_supplementary _ c); cbn [map app]; [|by apply IH].
    rewrite (urls_of_cons_Some _ _ u) by done.
    apply NoDup_cons. split; [|by apply IH].
    intros (a & Ha & Hau)%urls_of_elem.
    apply survivors_elem in Ha as (c' & u' & Hc' & -> & Hcu & _).
    cbn [set_query_and_tags get_url] in Hau.
    apply Hu', urls_of_elem. exists c'. split; [done|congruence].
  - rewrite (urls_of_cons_None _ _ Hu) in Hnd.
    unfold survivors at 1. cbn [List.filter]. unfold keep_supplementary at 1.
    rewrite Hu. cbn [map app]. by apply IH.
Qed.

Lemma query_database_by_tags_distinct_urls (E : env) (query_tags : list string) (k : Z)
    (w w' : world) (cached : list article) :
  query_database_by_tags E query_tags k w = (Return cached, w') →
  NoDup (urls_of cached).
Proof.
  rewrite query_database_by_tags_run. intros [= <- _].
  destruct (db_session E (connections w)); [|constructor].
  destruct (adaptable_list query_tags); [|constructor].
  pose proof (select_overlapping_NoDup (articles_table w) query_tags) as Hnd.
  induction (select_overlapping (articles_table w) query_tags) as [|[[u r] ts] l IH];
    [constructor|].
  cbn [map fst snd] in Hnd. apply NoDup_cons in Hnd as [Hu Hnd].
  cbn [List.filter fst snd]. destruct (_ <=? _)%Z; [|by apply IH].
  cbn [map fst snd]. rewrite (urls_of_cons_Some _ _ u) by done.
  apply NoDup_cons. split; [|by apply IH].
  intros (a & Ha & Hau)%urls_of_elem. apply Hu.
  apply list_elem_of_In, in_map_iff in Ha as ([[u' r'] ts'] & <- & Hin).
  cbn in Hau. injection Hau as ->.
  apply filter_In in Hin as [Hin _].
  apply list_elem_of_In, in_map_iff. by exists (u, r', ts').
Qed.

(** X12: when the fetcher returns no URL twice, no URL occurs twice in
    the merged set, and every article of the merged set has a URL: the
    cached rows have distinct keys and a candidate with a cached URL is
    dropped. *)
Theorem merged_set_has_distinct_urls (E : env) (query : string) (w w1 : world)
    (tags : list string) :
  extract_tags E query 5 w = (Return tags, w1) →
  (∀ fetched, search_and_summarize E query 5 = Return fetched → NoDup (urls_of fetched)) →
  ∃ merged w', merged_set E query w = (Return merged, w')
    ∧ NoDup (urls_of merged)
    ∧ ∀ a, a ∈ merged → is_Some (get_url a).
Proof.
  intros Htags Hdistinct.
  destruct (merged_set_world E query w)
    as [[e Hm]|(tags' & cached & Htags' & Hdb & Hcases)].
  { destruct (merged_set_returns _ _ _ _ _ Htags) as (m & wm & evs & ev & Hm' & _).
    rewrite Hm in Hm'. done. }
  cbn zeta in Htags', Hdb, Hcases.
  pose proof (query_database_by_tags_distinct_urls _ _ _ _ _ _ Hdb) as Hnd.
  pose proof (query_database_by_tags_urls _ _ _ _ _ _ Hdb) as Hurls.
  rewrite Forall_forall in Hurls.
  destruct Hcases as [[_ Hm]|(fetched & _ & Hs & [[_ Hm]|[_ Hm]])];
    rewrite Hm; eexists _, _; (split; [reflexivity|]); try (split; [done|done]).
  assert (Hf : NoDup (urls_of fetched)).
  { rewrite supplement_data_run in Hs. injection Hs as <-.
    case_bool_decide; [constructor|].
    destruct (search_and_summarize E query 5) as [l|e] eqn:Hl; [by apply Hdistinct|].
    constructor. }
  split.
  - unfold urls_of. rewrite omap_app. apply NoDup_app. split_and!; [done| |].
    + intros u Hu (a & Ha & Hau)%urls_of_elem.
      apply survivors_elem in Ha as (c & u' & _ & -> & Hcu & _ & Hnew).
      cbn [set_query_and_tags get_url] in Hau. by replace u' with u in Hnew by congruence.
    + by apply survivors_distinct_urls.
  - intros a [Ha|Ha]%elem_of_app; [by apply Hurls|].
    apply survivors_elem in Ha as (c & u & _ & -> & Hcu & _). by exists u.
Qed.

Lemma merged_set_has_distinct_urls_witness :
  ∃ merged w', merged_set Scenario.vague "latest things" Scenario.archive
               = (Return merged, w')
    ∧ NoDup (urls_of merged)
    ∧ ∀ a, a ∈ merged → is_Some (get_url a).
Proof.
  eapply (merged_set_has_distinct_urls Scenario.vague "latest things" Scenario.archive).
  - vm_compute. reflexivity.
  - intros fetched [= <-]. vm_compute. apply NoDup_singleton.
Defined.

(** X13: a row that a run of the orchestrator adds has a URL that begins
    with ["http"], and its query column is not empty unless the query of
    the run is. *)
Theorem orchestrator_adds_http_rows (E : env) (query extra : string) (w : world)
    (u : string) (r : row) :
  articles_table w !! u = None →
  articles_table (generate_report_for_query E query extra w).2 !! u = Some r →
  String.prefix "http" u = true
  ∧ (query ≠ "" → truthy_str (col_query r) = true).
Proof.
  intros Hno. rewrite generate_report_for_query_table.
  destruct (merged_set_world E query w)
    as [[e Hm]|(tags & cached & _ & _ & [[_ Hm]|(fetched & _ & _ & [[_ Hm]|[_ Hm]])])];
    rewrite Hm; cbn [snd articles_table]; try congruence.
  intros Hr. apply append_articles_new_row in Hr as (a & t & Ha & Hau & ->); [|done].
  apply survivors_elem in Ha as (c & u' & _ & -> & Hcu & Hp & _).
  cbn [set_query_and_tags get_url] in Hau. replace u' with u in Hp by congruence.
  split; [done|]. intros Hq. cbn [inserted_row col_query set_query_and_tags get_query].
  destruct (truthy_str (get_query c)) eqn:Ht; [done|].
  by destruct query.
Qed.

Lemma orchestrator_adds_http_rows_witness :
  articles_table Scenario.archive !! "https://news.example/x" = None
  ∧ articles_table
      (generate_report_for_query Scenario.newsroom "new tariff rules" ""
         Scenario.archive).2 !! "https://news.example/x"
    = Some (Row (Some "X") (Some "new tariff rules")
                (Some ["tariff"; "trump"; "china"; "rules"]) 1001)
  ∧ String.prefix "http" "https://news.example/x" = true
  ∧ ("new tariff rules" ≠ "" →
     truthy_str (col_query (Row (Some "X") (Some "new tariff rules")
                                (Some ["tariff"; "trump"; "china"; "rules"]) 1001))
     = true).
Proof.
  split; [reflexivity|]. split; [vm_compute; reflexivity|].
  apply (orchestrator_adds_http_rows Scenario.newsroom "new tariff rules" ""
           Scenario.archive).
  - reflexivity.
  - vm_compute. reflexivity.
Defined.

(** X14: with an empty query the orchestrator writes nothing: the fetch
    stage refuses the empty query, nothing is kept, and neither the table
    nor the number of [append_articles] calls changes. *)
Theorem empty_query_writes_nothing (E : env) (extra : string) (w : world) :
  let w' := (generate_report_for_query E "" extra w).2 in
  articles_table w' = articles_table w
  ∧ count_calls is_append_call (calls w') = count_calls is_append_call (calls w).
Proof.
  intros w'. subst w'.
  assert (Hm : let wm := (merged_set E "" w).2 in
               articles_table wm = articles_table w
               ∧ count_calls is_append_call (calls wm)
                 = count_calls is_append_call (calls w)).
  { destruct (merged_set_world E "" w)
      as [[e Hm]|(tags & cached & _ & _ & [[_ Hm]|(fetched & _ & Hs & [[_ Hm]|[Hb Hm]])])].
    1-3: rewrite Hm; cbn [snd articles_table calls]; rewrite ?count_calls_snoc;
      cbn [is_append_call]; split; [done|lia].
    exfalso. apply Hb. rewrite supplement_data_run in Hs. injection Hs as <-.
    reflexivity. }
  destruct Hm as [Ht Hc].
  destruct (generate_report_for_query_world E "" extra w) as [->|[prompt ->]].
  - done.
  - cbn [articles_table calls]. rewrite count_calls_snoc. cbn [is_append_call].
    split; [done|lia].
Qed.

(** ** Collation and narration *)

Lemma string_app_empty (s1 s2 : string) : s1 +:+ s2 = "" ↔ s1 = "" ∧ s2 = "".
Proof.
  split.
  - destruct s1 as [|c s1]; intros H; [split; [done|exact H]|discriminate H].
  - intros [-> ->]. reflexivity.
Qed.

Lemma emitted_empty (index : nat) (a : article) :
  emitted index a = "" ↔ truthy_str (get_summary a) = false.
Proof.
  unfold emitted. destruct (truthy_str (get_summary a)); [|done].
  split; [|done]. unfold block. intros H. discriminate H.
Qed.

(** X15: the collated context is empty exactly when no article of the
    list has a non-empty summary. *)
Theorem collate_empty_iff_no_summary (articles : list article) :
  collate_article_summaries articles = ""
  ↔ ∀ a, a ∈ articles → truthy_str (get_summary a) = false.
Proof.
  unfold collate_article_summaries, enumerate.
  rewrite (imap_ext pair (λ i a, (0 + i, a))) by done.
  rewrite collate_loop.
  change ("" +:+ ?s) with s.
  assert (Hgen : ∀ off,
             foldr String.append "" (imap (λ i a, emitted (off + i) a) articles) = ""
             ↔ ∀ a, a ∈ articles → truthy_str (get_summary a) = false).
  { induction articles as [|a l IH]; intros off.
    - split; [|done]. intros _ a Ha. by apply not_elem_of_nil in Ha.
    - rewrite imap_cons. cbn [foldr]. rewrite string_app_empty, emitted_empty.
      rewrite (imap_ext ((λ i a, emitted (off + i) a) ∘ S) (λ i a, emitted (S off + i) a))
        by (intros i x _; cbn; f_equal; lia).
      rewrite IH. split.
      + intros [Ha Hl] b [->|Hb]%elem_of_cons; [done|by apply Hl].
      + intros Hall. split; [apply Hall; by left|]. intros b Hb. apply Hall. by right. }
  apply Hgen.
Qed.

(** X16: when the merged set is not empty and the chat model answers, the
    orchestrator returns the model's text with the whitespace at its two
    ends stripped, and otherwise as it is, after exactly one call to the
    model, with the prompt built from the collated merged set, the query
    and the extra instructions. *)
Theorem narration_is_returned_stripped (E : env) (query extra text : string)
    (w w' : world) (a : article) (l : list article) :
  merged_set E query w = (Return (a :: l), w') →
  chat_completions E (build_prompt (collate_article_summaries (a :: l)) query extra)
    = Return text →
  generate_report_for_query E query extra w
  = (Return (strip text),
     World (articles_table w') (connections w')
           (calls w' ++ [Call_chat_completions
                           (build_prompt (collate_article_summaries (a :: l))
                              query extra)])).
Proof.
  intros Hm Hchat.
  by rewrite generate_report_for_query_run, Hm, generate_analysis_report_run, Hchat.
Qed.

Lemma narration_is_returned_stripped_witness :
  ∃ w' prompt,
    generate_report_for_query Scenario.padded "latest things" "Be brief." Scenario.archive
    = (Return "The  report.",
       World (articles_table w') (connections w')
             (calls w' ++ [Call_chat_completions prompt])).
Proof.
  eexists _, _.
  eapply (narration_is_returned_stripped Scenario.padded "latest things" "Be brief."
            (nl +:+ "  The  report. " +:+ nl) Scenario.archive).
  - vm_compute. reflexivity.
  - reflexivity.
Defined.

(** * Properties of the fetch and summarise pipeline *)

Lemma get_urls_loop_spec (num_results : nat) (raw_urls filtered_urls : list string) :
  Fetcher.get_urls_loop num_results raw_urls filtered_urls
  = filtered_urls
    ++ take (max 1 (num_results - length filtered_urls))
         (List.filter
            (λ url, negb (existsb (λ domain, Fetcher.contains domain url)
                            Fetcher.EXCLUDED_DOMAINS))
            raw_urls).
Proof.
  revert filtered_urls. induction raw_urls as [|url rest IH]; intros acc.
  - cbn [Fetcher.get_urls_loop List.filter]. by rewrite take_nil, app_nil_r.
  - cbn [Fetcher.get_urls_loop List.filter].
    destruct (existsb _ Fetcher.EXCLUDED_DOMAINS) eqn:Hex; cbn [negb]; [apply IH|].
    destruct (num_results <=? length (acc ++ [url])) eqn:Hle.
    + apply Nat.leb_le in Hle. rewrite length_app in Hle. cbn in Hle.
      replace (max 1 (num_results - length acc)) with 1 by lia. done.
    + apply Nat.leb_gt in Hle. rewrite length_app in Hle. cbn in Hle.
      rewrite IH, length_app. cbn [length].
      replace (max 1 (num_results - length acc))
        with (S (max 1 (num_results - (length acc + 1)))) by lia.
      cbn [take]. by rewrite <- app_assoc.
Qed.

(** X17: [get_urls] returns the first [max 1 num_results] of the search
    results that contain none of the excluded video domains, in the order
    of the search; so it returns no such URL, at most [num_results] URLs
    for a positive [num_results], and still one URL for [num_results = 0]. *)
Theorem get_urls_takes_first_allowed (B : Fetcher.backend) (query : string)
    (num_results : nat) (raw_urls : list string) :
  Fetcher.search B query (num_results * 2) = Fetcher.Ok raw_urls →
  ∃ urls,
    Fetcher.get_urls B query num_results = Fetcher.Ok urls
    ∧ urls = take (max 1 num_results)
               (List.filter
                  (λ url, negb (existsb (λ domain, Fetcher.contains domain url)
                                  Fetcher.EXCLUDED_DOMAINS))
                  raw_urls)
    ∧ length urls ≤ max 1 num_results
    ∧ ∀ url domain, url ∈ urls → domain ∈ Fetcher.EXCLUDED_DOMAINS →
                    Fetcher.contains domain url = false.
Proof.
  intros Hs. unfold Fetcher.get_urls. rewrite Hs. cbn [Fetcher.reraise].
  rewrite get_urls_loop_spec. cbn [app length]. rewrite Nat.sub_0_r.
  eexists. split; [reflexivity|]. split; [reflexivity|]. split.
  - rewrite length_take. lia.
  - intros url domain Hurl Hd.
    apply list_elem_of_In in Hurl.
    assert (Hin : In url (List.filter
                (λ url, negb (existsb (λ domain, Fetcher.contains domain url)
                                Fetcher.EXCLUDED_DOMAINS)) raw_urls)).
    { apply list_elem_of_In. apply list_elem_of_In in Hurl.
      eapply (subseteq_take (max 1 num_results)). exact Hurl. }
    apply filter_In in Hin as [_ Hok]. apply negb_true_iff in Hok.
    destruct (Fetcher.contains domain url) eqn:Hc; [|done].
    assert (Hex : existsb (λ domain, Fetcher.contains domain url)
                    Fetcher.EXCLUDED_DOMAINS = true).
    { apply existsb_exists. exists domain. split; [by apply list_elem_of_In|done]. }
    congruence.
Qed.

Lemma get_urls_takes_first_allowed_witness :
  ∃ urls,
    Fetcher.get_urls Newswire.backend "tariff rules" 2 = Fetcher.Ok urls
    ∧ urls = take (max 1 2)
               (List.filter
                  (λ url, negb (existsb (λ domain, Fetcher.contains domain url)
                                  Fetcher.EXCLUDED_DOMAINS))
                  ["https://news.example/x"; "https://www.youtube.com/watch?v=1";
                   "https://blog.example/y"; "https://vimeo.com/9";
                   "https://broken.example/z"])
    ∧ length urls ≤ max 1 2
    ∧ ∀ url domain, url ∈ urls → domain ∈ Fetcher.EXCLUDED_DOMAINS →
                    Fetcher.contains domain url = false.
Proof.
  apply (get_urls_takes_first_allowed Newswire.backend "tariff rules" 2).
  reflexivity.
Defined.

(** With [num_results = 0] the loop still returns the first allowed URL. *)
Example get_urls_zero :
  Fetcher.get_urls Newswire.backend "tariff rules" 0
  = Fetcher.Ok ["https://news.example/x"].
Proof. vm_compute. reflexivity. Qed.

(** ** Retries of the summariser *)

Lemma safe_summarize_loop_attempt (B : Fetcher.backend) (content : string)
    (max_retries attempt remaining : nat) :
  1 ≤ remaining → attempt + remaining = max_retries →
  ∃ i, attempt ≤ i < max_retries
       ∧ Fetcher.safe_summarize_loop B content max_retries attempt remaining
         = Fetcher.try_summarize B i content.
Proof.
  revert attempt. induction remaining as [|remaining IH]; intros attempt Hpos Hsum; [lia|].
  cbn [Fetcher.safe_summarize_loop].
  destruct (Fetcher.try_summarize B attempt content) as [summary|m|c m] eqn:Htry.
  - exists attempt. split; [lia|by rewrite Htry].
  - destruct (Fetcher.contains "CUDA" m && (attempt <? max_retries - 1)) eqn:Hretry.
    + apply andb_true_iff in Hretry as [_ Hlt]. apply Nat.ltb_lt in Hlt.
      destruct (IH (S attempt)) as (i & Hi & Heq); [lia|lia|].
      exists i. split; [lia|done].
    + exists attempt. split; [lia|by rewrite Htry].
  - exists attempt. split; [lia|by rewrite Htry].
Qed.

(** X18: with at least one retry allowed, what the retry loop of
    [safe_summarize] returns or raises is what one of its attempts
    returned or raised: the sentence after the loop, ["Summary error:
    Maximum retries exceeded"], is never reached. *)
Theorem safe_summarize_never_falls_through (B : Fetcher.backend) (content : string)
    (max_retries : nat) :
  1 ≤ max_retries →
  ∃ i, i < max_retries
       ∧ Fetcher.safe_summarize_loop B content max_retries 0 max_retries
         = Fetcher.try_summarize B i content.
Proof.
  intros Hpos.
  destruct (safe_summarize_loop_attempt B content max_retries 0 max_retries)
    as (i & Hi & Heq); [done|done|].
  exists i. split; [lia|done].
Qed.

Lemma safe_summarize_never_falls_through_witness :
  ∃ i, i < Fetcher.MAX_RETRIES
       ∧ Fetcher.safe_summarize Newswire.backend "Text of a page"
         = Fetcher.try_summarize Newswire.backend i "Text of a page".
Proof.
  apply (safe_summarize_never_falls_through Newswire.backend "Text of a page"
           Fetcher.MAX_RETRIES).
  unfold Fetcher.MAX_RETRIES. lia.
Defined.

(** A second GPU failure is raised, not retried. *)
Lemma safe_summarize_two_attempts (B : Fetcher.backend) (content : string) :
  Fetcher.safe_summarize B content
  = match Fetcher.try_summarize B 0 content with
    | Fetcher.RuntimeError m =>
        if Fetcher.contains "CUDA" m then Fetcher.try_summarize B 1 content
        else Fetcher.RuntimeError m
    | first => first
    end.
Proof.
  unfold Fetcher.safe_summarize, Fetcher.MAX_RETRIES. cbn [Fetcher.safe_summarize_loop].
  destruct (Fetcher.try_summarize B 0 content) as [s|m|c m]; [done| |done].
  destruct (Fetcher.contains "CUDA" m); [|done]. cbn.
  destruct (Fetcher.try_summarize B 1 content) as [s|m'|c m']; [done| |done].
  by rewrite andb_false_r.
Qed.

(** ** Shape of the pipeline's results *)

Lemma process_data_elem (B : Fetcher.backend) (data : list article) (a : article) :
  a ∈ Fetcher.process_data_for_summarization B data →
  ∃ e summary,
    e ∈ data
    ∧ a = Article (Some (default "Unknown URL" (get_url e)))
                  (Some (default "" (get_raw_content e))) (Some summary) None None None
    ∧ (String.prefix "Error:" (default "" (get_raw_content e)) = true →
       summary = default "" (get_raw_content e)).
Proof.
  unfold Fetcher.process_data_for_summarization. intros Ha.
  apply list_elem_of_In, in_map_iff in Ha as (e & <- & He).
  eexists e, _. split; [by apply list_elem_of_In|]. split; [reflexivity|].
  by intros ->.
Qed.

Lemma fetch_data_elem (B : Fetcher.backend) (mode : string) (query : option string)
    (url_list : option (list string)) (num_results : nat) (data : list article)
    (e : article) :
  Fetcher.fetch_data B mode query url_list num_results = Fetcher.Ok data →
  e ∈ data →
  ∃ url, e = Fetcher.entry url
               (match Fetcher.get_clean_content B url with
                | Fetcher.Ok content => content
                | failed => "Error: " +:+ Fetcher.message_of failed
                end).
Proof.
  unfold Fetcher.fetch_data. intros Hf He.
  destruct (if bool_decide (mode = "query") then _ else _) as [urls|m|c m];
    cbn [Fetcher.reraise] in Hf; [|done|done].
  injection Hf as <-. apply list_elem_of_In, in_map_iff in He as (url & <- & _).
  exists url. by destruct (Fetcher.get_clean_content B url).
Qed.

Lemma get_data_and_summarize_elem (B : Fetcher.backend) (query : option string)
    (url_list : option (list string)) (num_results : nat) (results : list article)
    (a : article) :
  Fetcher.get_data_and_summarize B query url_list num_results = Fetcher.Ok results →
  a ∈ results →
  ∃ url summary,
    let raw_content := match Fetcher.get_clean_content B url with
                       | Fetcher.Ok content => content
                       | failed => "Error: " +:+ Fetcher.message_of failed
                       end in
    a = Article (Some url) (Some raw_content) (Some summary) None None None
    ∧ (String.prefix "Error:" raw_content = true → summary = raw_content).
Proof.
  unfold Fetcher.get_data_and_summarize. intros Hg Ha.
  destruct (Fetcher.fetch_data B _ query url_list num_results) as [data|m|c m] eqn:Hf;
    cbn [Fetcher.reraise] in Hg; [|done|done].
  destruct (Fetcher.initialize_model B) as [[]|m|c m]; cbn [Fetcher.reraise] in Hg;
    [|done|done].
  injection Hg as <-.
  apply process_data_elem in Ha as (e & summary & He & -> & Herr).
  destruct (fetch_data_elem _ _ _ _ _ _ _ Hf He) as (url & ->).
  exists url, summary. cbn zeta. split; [done|]. exact Herr.
Qed.

(** X19: a page the reader answers with a status other than 200 stays in
    the results of [get_data_and_summarize]: its raw content and its
    summary are both the text ["Error: API Error: <status> - <body>"], a
    non-empty summary that collation will emit like any other. *)
Theorem failed_fetch_becomes_a_summary (B : Fetcher.backend) (query : option string)
    (url_list : option (list string)) (num_results : nat) (results : list article)
    (a : article) (url text : string) (status : nat) :
  Fetcher.get_data_and_summarize B query url_list num_results = Fetcher.Ok results →
  a ∈ results → get_url a = Some url →
  Fetcher.http_get B url = Fetcher.Ok (status, text) → status ≠ 200 →
  get_summary a = Some ("Error: API Error: " +:+ pretty status +:+ " - " +:+ text)
  ∧ get_raw_content a = get_summary a
  ∧ truthy_str (get_summary a) = true.
Proof.
  intros Hg Ha Hu Hget Hstatus.
  destruct (get_data_and_summarize_elem _ _ _ _ _ _ Hg Ha) as (url' & summary & -> & Herr).
  cbn [get_url] in Hu. injection Hu as ->.
  unfold Fetcher.get_clean_content in Herr |- *. rewrite Hget in Herr |- *.
  cbn [Fetcher.reraise fst snd] in Herr |- *.
  apply Nat.eqb_neq in Hstatus. rewrite Hstatus in Herr |- *.
  cbn [Fetcher.message_of get_summary get_raw_content] in Herr |- *.
  specialize (Herr eq_refl). subst summary. split_and!; reflexivity.
Qed.

Lemma failed_fetch_becomes_a_summary_witness :
  let a := Article (Some "https://broken.example/z")
                   (Some "Error: API Error: 404 - Not Found")
                   (Some "Error: API Error: 404 - Not Found") None None None in
  get_summary a = Some ("Error: API Error: " +:+ pretty 404 +:+ " - " +:+ "Not Found")
  ∧ get_raw_content a = get_summary a
  ∧ truthy_str (get_summary a) = true.
Proof.
  eapply (failed_fetch_becomes_a_summary Newswire.backend (Some "tariff rules") None 5
            _ _ "https://broken.example/z" "Not Found" 404).
  - vm_compute. reflexivity.
  - apply list_elem_of_In. cbn. right. right. left. reflexivity.
  - reflexivity.
  - reflexivity.
  - lia.
Defined.

Lemma get_data_and_summarize_lengths (B : Fetcher.backend) (query : string)
    (num_results : nat) (results : list article) :
  Fetcher.get_data_and_summarize B (Some query) None num_results = Fetcher.Ok results →
  ∃ raw_urls,
    Fetcher.search B query (num_results * 2) = Fetcher.Ok raw_urls
    ∧ map get_url results
      = map Some (Fetcher.get_urls_loop num_results raw_urls []).
Proof.
  unfold Fetcher.get_data_and_summarize, Fetcher.fetch_data. intros Hg.
  destruct (truthy_str (Some query)) eqn:Hq; cbn [bool_decide decide_rel] in Hg.
  - change (bool_decide ("query" = "query")) with true in Hg.
    change (default "" (Some query)) with query in Hg.
    unfold Fetcher.get_urls in Hg.
    destruct (Fetcher.search B query (num_results * 2)) as [raw|m|c m];
      cbn [Fetcher.reraise] in Hg; [|done|done].
    destruct (Fetcher.initialize_model B) as [[]|m|c m]; cbn [Fetcher.reraise] in Hg;
      [|done|done].
    injection Hg as <-. exists raw. split; [done|].
    unfold Fetcher.process_data_for_summarization. rewrite !map_map.
    apply map_ext. intros url.
    by destruct (Fetcher.get_clean_content B url).
  - change (bool_decide ("urls" = "query")) with false in Hg.
    change (bool_decide ("urls" = "urls")) with true in Hg. done.
Qed.

(** X20: for a query, [get_data_and_summarize] returns at most
    [max 1 num_results] articles, one for each URL [get_urls] kept and in
    that order, whether or not the pages could be fetched or summarised. *)
Theorem get_data_and_summarize_one_article_per_url (B : Fetcher.backend) (query : string)
    (num_results : nat) (results : list article) :
  Fetcher.get_data_and_summarize B (Some query) None num_results = Fetcher.Ok results →
  length results ≤ max 1 num_results
  ∧ ∃ urls, Fetcher.get_urls B query num_results = Fetcher.Ok urls
            ∧ map get_url results = map Some urls.
Proof.
  intros Hg. destruct (get_data_and_summarize_lengths _ _ _ _ Hg) as (raw & Hs & Hurls).
  split.
  - rewrite <- (length_map get_url), Hurls, length_map, get_urls_loop_spec.
    cbn [app]. rewrite length_take. cbn [length]. lia.
  - exists (Fetcher.get_urls_loop num_results raw []). split; [|done].
    unfold Fetcher.get_urls. by rewrite Hs.
Qed.

Lemma get_data_and_summarize_one_article_per_url_witness :
  ∃ results,
    Fetcher.get_data_and_summarize Newswire.backend (Some "tariff rules") None 5
    = Fetcher.Ok results
    ∧ length results ≤ max 1 5
    ∧ ∃ urls, Fetcher.get_urls Newswire.backend "tariff rules" 5 = Fetcher.Ok urls
              ∧ map get_url results = map Some urls.
Proof.
  eexists. split; [vm_compute; reflexivity|].
  eapply (get_data_and_summarize_one_article_per_url Newswire.backend "tariff rules" 5).
  vm_compute. reflexivity.
Defined.

(** X21: called with neither a query nor a list of URLs (an absent or
    empty value for each), [get_data_and_summarize] raises [ValueError]
    before anything is searched, fetched or loaded. *)
Theorem get_data_and_summarize_needs_input (B : Fetcher.backend) (query : option string)
    (url_list : option (list string)) (num_results : nat) :
  truthy_str query = false → truthy_list url_list = false →
  Fetcher.get_data_and_summarize B query url_list num_results
  = Fetcher.OtherError "ValueError" "url_list must be provided when mode is 'urls'.".
Proof.
  intros Hq Hl. unfold Fetcher.get_data_and_summarize, Fetcher.fetch_data.
  rewrite Hq, Hl. reflexivity.
Qed.

Lemma get_data_and_summarize_needs_input_witness :
  Fetcher.get_data_and_summarize Newswire.backend (Some "") (Some []) 5
  = Fetcher.OtherError "ValueError" "url_list must be provided when mode is 'urls'.".
Proof.
  apply (get_data_and_summarize_needs_input Newswire.backend (Some "") (Some []) 5);
    reflexivity.
Defined.

(** ** The orchestrator on top of the pipeline *)

(** X22: with this pipeline as the fetcher, every row a run of the
    orchestrator adds carries the query of the run, the tag list extracted
    from it, and a summary: the pipeline never sets [query] or [tags], so
    the defaults always apply. *)
Theorem pipeline_rows_carry_query_and_tags (B : Fetcher.backend) (E : env)
    (query extra : string) (w w1 : world) (tags : list string) (u : string) (r : row) :
  extract_tags (Fetcher.with_backend B E) query 5 w = (Return tags, w1) →
  articles_table w !! u = None →
  articles_table (generate_report_for_query (Fetcher.with_backend B E) query extra w).2
    !! u = Some r →
  col_query r = Some query ∧ col_tags r = Some tags ∧ is_Some (col_summary r).
Proof.
  intros Htags Hno. rewrite generate_report_for_query_table.
  destruct (merged_set_world (Fetcher.with_backend B E) query w)
    as [[e Hm]|(tags' & cached & Htags' & _ & [[_ Hm]|(fetched & _ & Hs & [[_ Hm]|[_ Hm]])])];
    rewrite Hm; cbn [snd articles_table]; try congruence.
  cbn zeta in Htags'. rewrite Htags in Htags'. injection Htags' as <- _.
  intros Hr. apply append_articles_new_row in Hr as (a & t & Ha & _ & ->); [|done].
  apply survivors_elem in Ha as (c & u' & Hc & -> & _).
  rewrite supplement_data_run in Hs. injection Hs as <-.
  case_bool_decide; [by apply not_elem_of_nil in Hc|].
  cbn [Fetcher.with_backend search_and_summarize] in Hc.
  destruct (Fetcher.get_data_and_summarize B (Some query) None 5) as [results|m|cl m] eqn:Hg;
    [|by apply not_elem_of_nil in Hc..].
  destruct (get_data_and_summarize_elem _ _ _ _ _ _ Hg Hc) as (url & summary & -> & _).
  cbn. split_and!; [done|done|by eexists].
Qed.

Lemma pipeline_rows_carry_query_and_tags_witness :
  let E := Fetcher.with_backend Newswire.backend Scenario.newsroom in
  articles_table Scenario.archive !! "https://broken.example/z" = None
  ∧ articles_table
      (generate_report_for_query E "new tariff rules" "" Scenario.archive).2
      !! "https://broken.example/z"
    = Some (Row (Some "Error: API Error: 404 - Not Found") (Some "new tariff rules")
                (Some ["tariff"; "trump"; "china"; "rules"]) 1001)
  ∧ col_query (Row (Some "Error: API Error: 404 - Not Found") (Some "new tariff rules")
                   (Some ["tariff"; "trump"; "china"; "rules"]) 1001)
    = Some "new tariff rules"
  ∧ col_tags (Row (Some "Error: API Error: 404 - Not Found") (Some "new tariff rules")
                  (Some ["tariff"; "trump"; "china"; "rules"]) 1001)
    = Some ["tariff"; "trump"; "china"; "rules"]
  ∧ is_Some (col_summary
               (Row (Some "Error: API Error: 404 - Not Found") (Some "new tariff rules")
                    (Some ["tariff"; "trump"; "china"; "rules"]) 1001)).
Proof.
  split; [reflexivity|]. split; [vm_compute; reflexivity|].
  eapply (pipeline_rows_carry_query_and_tags Newswire.backend Scenario.newsroom
            "new tariff rules" "" Scenario.archive _ _ "https://broken.example/z").
  - vm_compute. reflexivity.
  - reflexivity.
  - vm_compute. reflexivity.
Defined.

(** * Properties of the agent around the orchestrator *)




(** X24: when the agent answers without using its tool and a non-empty
    report is left in [last_tool_output], [run_agent] returns that report,
    whatever query it was written for, followed by the final answer; the
    report pipeline is not run, and the store, the calls made and
    [last_tool_output] are as before. *)
Theorem run_agent_reuses_remembered_report (E : env) (A : Agent.collaborators)
    (query report final_answer : string) (st : Agent.state) :
  Agent.last_tool_output st = Some report → report ≠ "" →
  Agent.agent_run A query = Agent.Finish final_answer →
  Agent.run_agent E A query st
  = (Return (report +:+ nl +:+ nl +:+ "### Final Recommendation" +:+ nl +:+ final_answer),
     st).
Proof.
  intros Hlast Hne Hplan. unfold Agent.run_agent. rewrite Hplan.
  cbn [Agent.run_plan]. rewrite Hlast.
  destruct report as [|c report]; [done|]. reflexivity.
Qed.

Lemma run_agent_reuses_remembered_report_witness :
  Agent.run_agent Scenario.newsroom Desk.direct "Should I buy DPZ?"
    (Agent.State Scenario.archive (Some "Report on tariffs."))
  = (Return ("Report on tariffs." +:+ nl +:+ nl +:+ "### Final Recommendation" +:+ nl
               +:+ "Hold."),
     Agent.State Scenario.archive (Some "Report on tariffs.")).
Proof.
  apply (run_agent_reuses_remembered_report Scenario.newsroom Desk.direct
           "Should I buy DPZ?" "Report on tariffs." "Hold.").
  - reflexivity.
  - discriminate.
  - reflexivity.
Defined.

(** X25: when the agent answers without using its tool and no report is
    remembered, [run_agent] runs [generate_report_tool] on the query
    itself: its output is that report followed by the final answer, and the
    report is remembered afterwards. *)
Theorem run_agent_generates_missing_report (E : env) (A : Agent.collaborators)
    (query report final_answer : string) (st st' : Agent.state) :
  truthy_str (Agent.last_tool_output st) = false →
  Agent.agent_run A query = Agent.Finish final_answer →
  Agent.generate_report_tool E A query st = (Return report, st') →
  Agent.run_agent E A query st
  = (Return (report +:+ nl +:+ nl +:+ "### Final Recommendation" +:+ nl +:+ final_answer),
     st')
  ∧ Agent.last_tool_output st' = Some report.
Proof.
  intros Hlast Hplan Htool. unfold Agent.run_agent. rewrite Hplan.
  cbn [Agent.run_plan]. rewrite Hlast, Htool. split; [done|].
  unfold Agent.generate_report_tool in Htool.
  destruct (generate_report_for_query E query _ (Agent.world_of st)) as [[r|e] w'];
    by inversion Htool.
Qed.

Lemma run_agent_generates_missing_report_witness :
  ∃ st',
    Agent.run_agent Scenario.vague Desk.direct "latest things"
      (Agent.State Scenario.archive None)
    = (Return ("report" +:+ nl +:+ nl +:+ "### Final Recommendation" +:+ nl +:+ "Hold."),
       st')
    ∧ Agent.last_tool_output st' = Some "report".
Proof.
  eexists.
  eapply (run_agent_generates_missing_report Scenario.vague Desk.direct "latest things"
            "report" "Hold." (Agent.State Scenario.archive None)).
  - reflexivity.
  - reflexivity.
  - vm_compute. reflexivity.
Defined.

Lemma generate_report_tool_keeps_rows (E : env) (A : Agent.collaborators) (query : string)
    (st : Agent.state) (u : string) (r : row) :
  articles_table (Agent.world_of st) !! u = Some r →
  articles_table (Agent.world_of (Agent.generate_report_tool E A query st).2) !! u
  = Some r.
Proof.
  intros Hr. unfold Agent.generate_report_tool.
  pose proof (generate_report_for_query_keeps_rows E query
                (Agent.generate_dynamic_instructions A query) _ _ _ Hr) as Hkeep.
  by destruct (generate_report_for_query E query _ (Agent.world_of st)) as [[report|e] w'].
Qed.

Lemma run_plan_keeps_rows (E : env) (A : Agent.collaborators) (p : Agent.plan)
    (st : Agent.state) (u : string) (r : row) :
  articles_table (Agent.world_of st) !! u = Some r →
  articles_table (Agent.world_of (Agent.run_plan E A p st).2) !! u = Some r.
Proof.
  revert st. induction p as [answer|e|tool_input next IH]; intros st Hr; [done|done|].
  cbn [Agent.run_plan].
  pose proof (generate_report_tool_keeps_rows E A tool_input st u r Hr) as Hkeep.
  destruct (Agent.generate_report_tool E A tool_input st) as [[report|e] st'];
    [by apply IH|done].
Qed.

(** X26: however often the agent uses its tool, and whether or not
    [run_agent] generates a report of its own, a row that is stored when
    [run_agent] starts is stored unchanged when it ends. *)
Theorem run_agent_keeps_stored_rows (E : env) (A : Agent.collaborators) (query : string)
    (st : Agent.state) (u : string) (r : row) :
  articles_table (Agent.world_of st) !! u = Some r →
  articles_table (Agent.world_of (Agent.run_agent E A query st).2) !! u = Some r.
Proof.
  intros Hr. unfold Agent.run_agent.
  pose proof (run_plan_keeps_rows E A (Agent.agent_run A query) st u r Hr) as Hplan.
  destruct (Agent.run_plan E A (Agent.agent_run A query) st) as [[answer|e] st'];
    [|done].
  cbn [snd] in Hplan.
  destruct (truthy_str (Agent.last_tool_output st')); [done|].
  pose proof (generate_report_tool_keeps_rows E A query st' u r Hplan) as Htool.
  by destruct (Agent.generate_report_tool E A query st') as [[report|e] st''].
Qed.

Lemma run_agent_keeps_stored_rows_witness :
  articles_table
    (Agent.world_of
       (Agent.run_agent Scenario.newsroom Desk.diligent "new tariff rules"
          (Agent.State Scenario.archive None)).2) !! "https://example.com/a"
  = Some Scenario.trump_row.
Proof.
  apply (run_agent_keeps_stored_rows Scenario.newsroom Desk.diligent "new tariff rules"
           (Agent.State Scenario.archive None)).
  reflexivity.
Defined.

(** * The earlier orchestrator *)

Lemma keep_new_filter (existing_urls : gset string) (l : list article) (w : world) :
  (∀ c, c ∈ l → ∃ u, get_url c = Some u ∧ String.prefix "http" u = true) →
  Phase1.keep_new existing_urls l w
  = (Return (List.filter (keep_supplementary existing_urls) l), w).
Proof.
  induction l as [|c l IH]; intros Hall; [done|].
  destruct (Hall c) as (u & Hu & Hp); [by left|].
  assert (Hk : keep_supplementary existing_urls c = bool_decide (u ∉ existing_urls))
    by (unfold keep_supplementary; by rewrite Hu, Hp).
  cbn [Phase1.keep_new List.filter]. rewrite Hk.
  unfold bind at 1. unfold subscript_url at 1.
  rewrite Hu. unfold ret at 1. unfold bind at 1.
  rewrite IH by (intros c' Hc'; apply Hall; by right).
  unfold ret. by destruct (bool_decide (u ∉ existing_urls)).
Qed.

(** X27: the earlier orchestrator of [Phase1] and the one of
    [Core_Workflow] compute the same merged set and leave the same world
    when every fetched candidate has a URL that begins with ["http"] and
    the lookup returns fewer than three or at least seven articles; the
    two differ only in the threshold and in the scheme filter. *)
Theorem phase1_agrees_on_http_candidates (E : env) (query : string) (w w1 w2 : world)
    (tags : list string) (cached : list article) :
  extract_tags E query 5 w = (Return tags, w1) →
  query_database_by_tags E tags 4 w1 = (Return cached, w2) →
  length cached < Phase1.MIN_ARTICLE_THRESHOLD ∨ MIN_ARTICLE_THRESHOLD ≤ length cached →
  (∀ fetched c, search_and_summarize E query 5 = Return fetched → c ∈ fetched →
                ∃ u, get_url c = Some u ∧ String.prefix "http" u = true) →
  Phase1.merged_set E query w = merged_set E query w.
Proof.
  intros Htags Hdb Hlen Hhttp.
  unfold Phase1.MIN_ARTICLE_THRESHOLD, MIN_ARTICLE_THRESHOLD in Hlen.
  unfold Phase1.merged_set, merged_set.
  unfold bind at 1 7. rewrite Htags. unfold bind at 1 6. rewrite Hdb.
  unfold Phase1.MIN_ARTICLE_THRESHOLD, MIN_ARTICLE_THRESHOLD.
  destruct Hlen as [Hlen|Hlen].
  - rewrite (proj2 (Nat.ltb_lt _ _)) by lia. rewrite (proj2 (Nat.ltb_lt _ _)) by lia.
    destruct (supplement_data_returns E query 5 w2) as (fetched & w3 & Hs).
    unfold bind at 1 5. rewrite Hs. unfold bind at 1 4.
    rewrite (for_each_subscript_url cached w3 (query_database_by_tags_urls _ _ _ _ _ _ Hdb)).
    unfold bind at 1. rewrite keep_new_filter; [done|].
    intros c Hc. rewrite supplement_data_run in Hs. injection Hs as <-.
    case_bool_decide; [by apply not_elem_of_nil in Hc|].
    destruct (search_and_summarize E query 5) as [l|e] eqn:Hl;
      [by eapply Hhttp|by apply not_elem_of_nil in Hc].
  - rewrite (proj2 (Nat.ltb_ge _ _)) by lia. rewrite (proj2 (Nat.ltb_ge _ _)) by lia. done.
Qed.

Lemma phase1_agrees_on_http_candidates_witness :
  Phase1.merged_set Scenario.vague "latest things" Scenario.archive
  = merged_set Scenario.vague "latest things" Scenario.archive.
Proof.
  eapply (phase1_agrees_on_http_candidates Scenario.vague "latest things"
            Scenario.archive).
  - vm_compute. reflexivity.
  - vm_compute. reflexivity.
  - left. vm_compute. lia.
  - intros fetched c [= <-] Hc. apply list_elem_of_singleton in Hc as ->.
    by eexists.
Defined.
